(** * enso.graphics.font: the font flyweight pool and its glyph cache

    A shallow embedding of [enso/graphics/font.py] (classes [Font] and
    [FontGlyph]) together with the properties of the font-resolution
    fallback chain, the two memo tables, the glyph-metrics transform and
    the save/restore discipline on the shared cairo context.

    Python objects live in stores indexed by reference; module and class
    level variables are fields of the interpreter state; exceptions keep
    the state reached when they were raised. *)

From Stdlib Require Import Ascii String QArith Lqa.
From stdpp Require Import base option list relations strings gmap.

Local Close Scope Q_scope.
Local Open Scope string_scope.
Local Open Scope list_scope.

(** ** Values of the interpreter *)

(** Exceptions that the modelled statements can raise. *)
Inductive Exn : Type :=
  | KeyError (key : string)      (* subscript of a dict with an absent key *)
  | AttributeError               (* method call on [None] *)
  | TypeError                    (* [None] where cairo wants a string *)
  | CairoError                   (* [restore()] without a matching [save()] *)
  | UnicodeDecodeError.          (* a byte above 127 where ASCII is decoded *)

Inductive Result (A : Type) : Type :=
  | Ok (a : A)
  | Raise (e : Exn).
Arguments Ok {A} a.
Arguments Raise {A} e.

(** Python truthiness of a value that is [None] or a string:
    [None] and the empty string are false. *)
Definition truthy (v : option string) : bool :=
  match v with
  | Some (String _ _) => true
  | _ => false
  end.

(** ** The cairo context *)

Inductive Slant : Type := FONT_SLANT_NORMAL | FONT_SLANT_ITALIC.
Inductive Weight : Type := FONT_WEIGHT_NORMAL | FONT_WEIGHT_BOLD.

(** The part of cairo's graphics state that this module writes:
    the selected face and the font size. *)
Record GState : Type := mkGState {
  gs_family : string;
  gs_slant : Slant;
  gs_weight : Weight;
  gs_size : Q
}.

(** A context is its current graphics state and the stack of saved ones. *)
Record Cairo : Type := mkCairo {
  current : GState;
  saved : list GState
}.

(** [font_extents()]: ascent, descent, height, max_x_advance, max_y_advance. *)
Record FontExtents : Type := mkFontExtents {
  fe_ascent : Q;
  fe_descent : Q;
  fe_height : Q;
  fe_maxXAdvance : Q;
  fe_maxYAdvance : Q
}.

(** [text_extents(s)]: x_bearing, y_bearing, width, height, x_advance,
    y_advance. *)
Record TextExtents : Type := mkTextExtents {
  te_xBearing : Q;
  te_yBearing : Q;
  te_width : Q;
  te_height : Q;
  te_xAdvance : Q;
  te_yAdvance : Q
}.

(** ** Collaborators *)

(** What the font registry reports for a font it knows. *)
Record FontDetail : Type := mkFontDetail {
  filepath : string
}.

(** Everything the module reads and never writes: the platform string, the
    settings module, the font registry provider, the shell's font folder
    and the cairo backend's answers. *)
Record Env : Type := mkEnv {
  sys_platform : string;
  config_FONT_NAME : option (gmap string string);
  get_font_detail : string -> option FontDetail;
  fonts_dir : string;
  cairo_fresh : GState;
  cairo_font_extents : GState -> FontExtents;
  cairo_text_extents : GState -> string -> TextExtents
}.

(** ** Objects and the interpreter state *)

(** References are positions in the stores below. *)
Abbreviation FontRef := nat (only parsing).
Abbreviation GlyphRef := nat (only parsing).

(** Attributes of a [Font] instance. The five metrics are assigned together
    by one tuple assignment, after [loadInto]; before that they are absent. *)
Record Font : Type := mkFont {
  name : string;
  size : Q;
  isItalic : bool;
  font_name : option string;
  slant : Slant;
  metrics : option FontExtents
}.

(** Attributes of a [FontGlyph] instance. *)
Record FontGlyph : Type := mkFontGlyph {
  charAsUtf8 : string;
  char : N;
  font : FontRef;
  xMin : Q;
  xMax : Q;
  yMin : Q;
  yMax : Q;
  advance : Q
}.

Inductive LogRecord : Type :=
  | Info_FontUsed (d : FontDetail)
      (* logging.info("Font used: " + repr(font_detail)) *)
  | Error_FontNotFound (font_id : string)
      (* logging.error("Specified font was not found in the system: ...") *)
  | Error_NoFontNameSetting
      (* logging.error("There is no FONT_NAME setting in enso.config.") *)
  | Warning_UsingDefaultArial.
      (* logging.warning("Using default 'Arial.ttf' font.") *)

(** The arguments of [Font.get]: name, size, isItalic. *)
Abbreviation FontKey := (string * Q * bool)%type (only parsing).

(** The arguments of [getGlyph]: self, char. *)
Abbreviation GlyphKey := (nat * N)%type (only parsing).

Record State : Type := mkState {
  used_font_logged : bool;                      (* _used_font_logged *)
  log : list LogRecord;                         (* newest record first *)
  Font_cairoContext : option Cairo;             (* Font._cairoContext *)
  fonts : list Font;                            (* Font objects *)
  glyphs : list FontGlyph;                      (* FontGlyph objects *)
  Font_get_cache : list (FontKey * FontRef);    (* memo table of Font.get *)
  getGlyph_cache : list (GlyphKey * GlyphRef)   (* memo table of getGlyph *)
}.

(** The state when the module has just been imported. *)
Definition initial_state : State :=
  {| used_font_logged := false;
     log := [];
     Font_cairoContext := None;
     fonts := [];
     glyphs := [];
     Font_get_cache := [];
     getGlyph_cache := [] |}.

(** ** A state monad with exceptions *)

Definition M (A : Type) : Type := State -> Result A * State.

Definition ret {A} (a : A) : M A := fun s => (Ok a, s).

Definition raise {A} (e : Exn) : M A := fun s => (Raise e, s).

Definition bind {A B} (m : M A) (k : A -> M B) : M B :=
  fun s =>
    match m s with
    | (Ok a, s') => k a s'
    | (Raise e, s') => (Raise e, s')
    end.

Declare Scope py_scope.
Delimit Scope py_scope with py.
Notation "'let!' x ':=' m 'in' k" := (bind m (fun x => k))
  (at level 10, x name, m at level 100, k at level 200) : py_scope.
Notation "'do!' m 'in' k" := (bind m (fun _ => k))
  (at level 10, m at level 100, k at level 200) : py_scope.
Local Open Scope py_scope.

Definition when (b : bool) (m : M unit) : M unit :=
  if b then m else ret tt.

(** *** Field updates *)

Definition set_used_font_logged (b : bool) : M unit := fun s =>
  (Ok tt, {| used_font_logged := b; log := log s;
             Font_cairoContext := Font_cairoContext s; fonts := fonts s;
             glyphs := glyphs s; Font_get_cache := Font_get_cache s;
             getGlyph_cache := getGlyph_cache s |}).

Definition logging (r : LogRecord) : M unit := fun s =>
  (Ok tt, {| used_font_logged := used_font_logged s; log := r :: log s;
             Font_cairoContext := Font_cairoContext s; fonts := fonts s;
             glyphs := glyphs s; Font_get_cache := Font_get_cache s;
             getGlyph_cache := getGlyph_cache s |}).

Definition with_context (c : option Cairo) (s : State) : State :=
  {| used_font_logged := used_font_logged s; log := log s;
     Font_cairoContext := c; fonts := fonts s;
     glyphs := glyphs s; Font_get_cache := Font_get_cache s;
     getGlyph_cache := getGlyph_cache s |}.

Definition with_fonts (fs : list Font) (s : State) : State :=
  {| used_font_logged := used_font_logged s; log := log s;
     Font_cairoContext := Font_cairoContext s; fonts := fs;
     glyphs := glyphs s; Font_get_cache := Font_get_cache s;
     getGlyph_cache := getGlyph_cache s |}.

Definition with_glyphs (gs : list FontGlyph) (s : State) : State :=
  {| used_font_logged := used_font_logged s; log := log s;
     Font_cairoContext := Font_cairoContext s; fonts := fonts s;
     glyphs := gs; Font_get_cache := Font_get_cache s;
     getGlyph_cache := getGlyph_cache s |}.

Definition with_Font_get_cache (c : list (FontKey * FontRef)) (s : State) : State :=
  {| used_font_logged := used_font_logged s; log := log s;
     Font_cairoContext := Font_cairoContext s; fonts := fonts s;
     glyphs := glyphs s; Font_get_cache := c;
     getGlyph_cache := getGlyph_cache s |}.

Definition with_getGlyph_cache (c : list (GlyphKey * GlyphRef)) (s : State) : State :=
  {| used_font_logged := used_font_logged s; log := log s;
     Font_cairoContext := Font_cairoContext s; fonts := fonts s;
     glyphs := glyphs s; Font_get_cache := Font_get_cache s;
     getGlyph_cache := c |}.

Definition modify (f : State -> State) : M unit := fun s => (Ok tt, f s).

Definition gets {A} (f : State -> A) : M A := fun s => (Ok (f s), s).

(** ** Python built-ins used by the module *)

(** [d.has_key(k)] and [d[k]] on a dict with string keys. *)
Definition has_key (d : gmap string string) (k : string) : bool :=
  match d !! k with
  | Some _ => true
  | None => false
  end.

Definition getitem (d : gmap string string) (k : string) : M string :=
  match d !! k with
  | Some v => ret v
  | None => raise (KeyError k)
  end.

Definition last_char (p : string) : option ascii :=
  last (list_ascii_of_string p).

(** [os.path.join(path, b)] on Windows (Python 2 [ntpath.join]) for a second
    component that is relative and has no drive, which is how [loadInto]
    calls it: a backslash is inserted unless [path] is empty or already ends
    in a separator or a drive colon. *)
Definition os_path_join (path b : string) : string :=
  match last_char path with
  | None => b
  | Some c =>
      if (Ascii.eqb c "/" || Ascii.eqb c "\" || Ascii.eqb c ":")%bool
      then path +:+ b
      else path +:+ "\" +:+ b
  end.

(** Whether a byte string decodes as ASCII, which is what Python 2 tries
    when a [str] is formatted into a [unicode] template. *)
Definition is_ascii (b : string) : bool :=
  forallb (fun c => (N_of_ascii c <? 128)%N) (list_ascii_of_string b).

(** [char.encode("UTF-8")] for one code point. *)
Definition byte_string (bs : list N) : string :=
  string_of_list_ascii (map ascii_of_N bs).

Definition encode_UTF8 (cp : N) : string :=
  (if cp <? 128 then byte_string [cp]
   else if cp <? 2048 then
     byte_string [192 + cp / 64; 128 + cp mod 64]
   else if cp <? 65536 then
     byte_string [224 + cp / 4096; 128 + (cp / 64) mod 64; 128 + cp mod 64]
   else
     byte_string [240 + cp / 262144; 128 + (cp / 4096) mod 64;
                  128 + (cp / 64) mod 64; 128 + cp mod 64])%N.

(** ** cairo calls on the shared context

    Every context this module touches is [Font._cairoContext]: [__init__]
    stores it in [self.cairoContext] and [getGlyph] passes that attribute
    on, so the [cairoContext] argument of [loadInto] and of
    [FontGlyph.__init__] denotes the context held in the state. A method
    call while the class attribute is still [None] is an [AttributeError]. *)

Definition the_context : M Cairo := fun s =>
  match Font_cairoContext s with
  | Some c => (Ok c, s)
  | None => (Raise AttributeError, s)
  end.

Definition put_context (c : Cairo) : M unit :=
  modify (with_context (Some c)).

Definition cairo_save : M unit :=
  let! c := the_context in
  put_context {| current := current c; saved := current c :: saved c |}.

Definition cairo_restore : M unit :=
  let! c := the_context in
  match saved c with
  | g :: rest => put_context {| current := g; saved := rest |}
  | [] => raise CairoError
  end.

Definition select_font_face (family : option string) (sl : Slant) (w : Weight)
  : M unit :=
  let! c := the_context in
  match family with
  | None => raise TypeError
  | Some fam =>
      put_context
        {| current := {| gs_family := fam; gs_slant := sl; gs_weight := w;
                         gs_size := gs_size (current c) |};
           saved := saved c |}
  end.

Definition set_font_size (sz : Q) : M unit :=
  let! c := the_context in
  put_context
    {| current := {| gs_family := gs_family (current c);
                     gs_slant := gs_slant (current c);
                     gs_weight := gs_weight (current c);
                     gs_size := sz |};
       saved := saved c |}.

Definition font_extents (env : Env) : M FontExtents :=
  let! c := the_context in
  ret (cairo_font_extents env (current c)).

Definition text_extents (env : Env) (utf8 : string) : M TextExtents :=
  let! c := the_context in
  ret (cairo_text_extents env (current c) utf8).

(** ** Object stores *)

(** A new object gets the next free reference. *)
Definition alloc_font (f : Font) : M FontRef := fun s =>
  (Ok (length (fonts s)), with_fonts (fonts s ++ [f]) s).

Definition alloc_glyph (g : FontGlyph) : M GlyphRef := fun s =>
  (Ok (length (glyphs s)), with_glyphs (glyphs s ++ [g]) s).

(** Attribute reads go through the store; a reference that names no object
    has no attributes. *)
Definition read_font (self : FontRef) : M Font := fun s =>
  match fonts s !! self with
  | Some f => (Ok f, s)
  | None => (Raise AttributeError, s)
  end.

Definition assign_font_name (v : option string) (f : Font) : Font :=
  {| name := name f; size := size f; isItalic := isItalic f;
     font_name := v; slant := slant f; metrics := metrics f |}.

Definition assign_metrics (fe : FontExtents) (f : Font) : Font :=
  {| name := name f; size := size f; isItalic := isItalic f;
     font_name := font_name f; slant := slant f; metrics := Some fe |}.

Definition set_font_name (self : FontRef) (v : option string) : M unit :=
  modify (fun s => with_fonts (alter (assign_font_name v) self (fonts s)) s).

Definition set_metrics (self : FontRef) (fe : FontExtents) : M unit :=
  modify (fun s => with_fonts (alter (assign_metrics fe) self (fonts s)) s).

(** ** class Font *)

Section Module_font.

Variable env : Env.

(** [sys.platform.startswith("win")] *)
Definition platform_is_win : bool := String.prefix "win" (sys_platform env).

(** [hasattr(config, "FONT_NAME")] *)
Definition hasattr_FONT_NAME : bool :=
  match config_FONT_NAME env with
  | Some _ => true
  | None => false
  end.

(** [u"Specified font was not found in the system: \"%s\"." % font_id]:
    the settings entries are byte strings (plain literals, as in the
    example of [config.py]), and Python 2 decodes a byte string as ASCII
    when it formats it into a unicode template. *)
Definition format_not_found (font_id : string) : M LogRecord :=
  if is_ascii font_id then ret (Error_FontNotFound font_id)
  else raise UnicodeDecodeError.

(** The nested function [get_font_name] of [loadInto]: ask the registry,
    report the outcome once per process, return the file path or [None].
    In the not-found branch the message is built before it is logged and
    before the flag is set, so a failure to build it leaves both as they
    were. *)
Definition get_font_name (font_id : string) : M (option string) :=
  match get_font_detail env font_id with
  | Some font_detail =>
      let font_name := Some (filepath font_detail) in
      let! logged := gets used_font_logged in
      do! when (negb logged)
            (do! logging (Info_FontUsed font_detail) in
             set_used_font_logged true) in
      ret font_name
  | None =>
      let font_name := None in
      let! logged := gets used_font_logged in
      do! when (negb logged)
            (let! message := format_not_found font_id in
             do! logging message in
             set_used_font_logged true) in
      ret font_name
  end.

(** The body of [if not self.font_name:] in the Windows branch. *)
Definition resolve_win (self : FontRef) (isItalic : bool) : M unit :=
  do! when (negb hasattr_FONT_NAME) (logging Error_NoFontNameSetting) in
  let! font_name :=
    (if isItalic then
       match config_FONT_NAME env with
       | Some FONT_NAME =>
           let! font_name :=
             (if has_key FONT_NAME "italic" then
                let! font_id := getitem FONT_NAME "italic" in
                get_font_name font_id
              else ret None) in
           if negb (truthy font_name) then
             let! font_id := getitem FONT_NAME "normal" in
             get_font_name font_id
           else ret font_name
       | None => ret None
       end
     else
       match config_FONT_NAME env with
       | Some FONT_NAME =>
           if has_key FONT_NAME "normal" then
             let! font_id := getitem FONT_NAME "normal" in
             get_font_name font_id
           else ret None
       | None => ret None
       end) in
  let! font_name :=
    (if negb (truthy font_name) then
       do! logging Warning_UsingDefaultArial in
       ret (Some (os_path_join (fonts_dir env) "arial.ttf"))
     else ret font_name) in
  set_font_name self font_name.

(** The body of [if not self.font_name:] on every other platform. *)
Definition resolve_other (self : FontRef) (isItalic : bool) : M unit :=
  do! when (negb hasattr_FONT_NAME) (logging Error_NoFontNameSetting) in
  let! font_name :=
    (if isItalic then
       match config_FONT_NAME env with
       | Some FONT_NAME =>
           let! font_name :=
             (if has_key FONT_NAME "italic" then
                let! v := getitem FONT_NAME "italic" in ret (Some v)
              else ret None) in
           if negb (truthy font_name) then
             let! v := getitem FONT_NAME "normal" in ret (Some v)
           else ret font_name
       | None => ret None
       end
     else
       match config_FONT_NAME env with
       | Some FONT_NAME =>
           if has_key FONT_NAME "normal" then
             let! v := getitem FONT_NAME "normal" in ret (Some v)
           else ret None
       | None => ret None
       end) in
  let font_name :=
    if negb (truthy font_name) then Some "Helvetica" else font_name in
  set_font_name self font_name.

(** [Font.loadInto(self, cairoContext)] *)
Definition loadInto (self : FontRef) : M unit :=
  do! (if platform_is_win then
         let! f := read_font self in
         do! when (negb (truthy (font_name f)))
               (resolve_win self (isItalic f)) in
         let! f := read_font self in
         select_font_face (font_name f) (slant f) FONT_WEIGHT_NORMAL
       else
         let! f := read_font self in
         do! when (negb (truthy (font_name f)))
               (resolve_other self (isItalic f)) in
         let! f := read_font self in
         select_font_face (font_name f) (slant f) FONT_WEIGHT_NORMAL) in
  let! f := read_font self in
  set_font_size (size f).

(** [if not Font._cairoContext:] create the one-pixel surface's context. *)
Definition ensure_context : M unit := fun s =>
  match Font_cairoContext s with
  | Some _ => (Ok tt, s)
  | None =>
      (Ok tt, with_context (Some {| current := cairo_fresh env; saved := [] |}) s)
  end.

(** [Font.__init__(self, name, size, isItalic)], with the creation of the
    instance in front; the result is the reference to the new object. *)
Definition Font_init (name : string) (size : Q) (isItalic : bool) : M FontRef :=
  let! self :=
    alloc_font
      {| name := name; size := size; isItalic := isItalic;
         font_name := None;
         slant := if isItalic then FONT_SLANT_ITALIC else FONT_SLANT_NORMAL;
         metrics := None |} in
  do! ensure_context in
  do! cairo_save in
  do! loadInto self in
  let! fe := font_extents env in
  do! set_metrics self fe in
  do! cairo_restore in
  ret self.

(** Equality of argument tuples as dict keys: strings by content, numbers
    by value, booleans by value. *)
Definition FontKey_eqb (a b : FontKey) : bool :=
  let '(n1, s1, i1) := a in
  let '(n2, s2, i2) := b in
  (String.eqb n1 n2 && Qeq_bool s1 s2 && Bool.eqb i1 i2)%bool.

(** [Font] instances define no [__eq__]: they compare by identity. *)
Definition GlyphKey_eqb (a b : GlyphKey) : bool :=
  (Nat.eqb a.1 b.1 && N.eqb a.2 b.2)%bool.

Fixpoint assoc {K V} (eqb : K -> K -> bool) (k : K) (l : list (K * V))
  : option V :=
  match l with
  | [] => None
  | (k', v) :: l' => if eqb k k' then Some v else assoc eqb k l'
  end.

(** Modelled from the spec: [enso.utils.memoize.memoized] is not among the
    sources. The spec describes it as a mapping-backed cache keyed by the
    argument tuple that lives as long as the process: a call whose
    arguments are in the table returns the stored object and runs nothing;
    any other call runs the function and stores what it returns. The
    spec has no sentence on a call whose function raises: that the store
    step is then skipped (the exception passes through [bind]) is a choice
    of this model, not a statement of the spec. *)
Definition memoized {K V} (eqb : K -> K -> bool)
    (cache : State -> list (K * V))
    (with_cache : list (K * V) -> State -> State)
    (function : K -> M V) (args : K) : M V :=
  let! hit := gets (fun s => assoc eqb args (cache s)) in
  match hit with
  | Some v => ret v
  | None =>
      let! v := function args in
      do! modify (fun s => with_cache ((args, v) :: cache s) s) in
      ret v
  end.

(** [Font.get(name, size, isItalic)] *)
Definition Font_get : FontKey -> M FontRef :=
  memoized FontKey_eqb Font_get_cache with_Font_get_cache
    (fun '(name, size, isItalic) => Font_init name size isItalic).

(** [getKerningDistance(self, charLeft, charRight)] *)
Definition getKerningDistance (self : FontRef) (charLeft charRight : N) : M Q :=
  ret 0%Q.

(** ** class FontGlyph *)

(** The attribute assignments of [FontGlyph.__init__] from the unpacked
    [text_extents] tuple. *)
Definition glyph_of_extents (charAsUtf8 : string) (char : N) (font : FontRef)
    (te : TextExtents) : FontGlyph :=
  let xBearing := te_xBearing te in
  let yBearing := te_yBearing te in
  let width := te_width te in
  let height := te_height te in
  let xAdvance := te_xAdvance te in
  {| charAsUtf8 := charAsUtf8;
     char := char;
     font := font;
     xMin := xBearing;
     xMax := (xBearing + width)%Q;
     yMin := (- yBearing + height)%Q;
     yMax := (- yBearing)%Q;
     advance := xAdvance |}.

(** [FontGlyph.__init__(self, char, font, cairoContext)]. The constructor
    calls no method of the instance under construction, so the instance
    enters the store with all its attributes when the body is done. *)
Definition FontGlyph_init (char : N) (font : FontRef) : M GlyphRef :=
  let charAsUtf8 := encode_UTF8 char in
  do! cairo_save in
  do! loadInto font in
  let! te := text_extents env charAsUtf8 in
  let self := glyph_of_extents charAsUtf8 char font te in
  do! cairo_restore in
  alloc_glyph self.

(** [Font.getGlyph(self, char)] *)
Definition getGlyph : GlyphKey -> M GlyphRef :=
  memoized GlyphKey_eqb getGlyph_cache with_getGlyph_cache
    (fun '(self, char) => FontGlyph_init char self).

End Module_font.

(** ** Sample environments *)

(** A backend whose metrics are simple functions of the selected size. *)
Definition sample_font_extents (g : GState) : FontExtents :=
  {| fe_ascent := gs_size g; fe_descent := (gs_size g / 4)%Q;
     fe_height := (gs_size g * 5 / 4)%Q;
     fe_maxXAdvance := gs_size g; fe_maxYAdvance := 0%Q |}.

Definition sample_text_extents (g : GState) (utf8 : string) : TextExtents :=
  {| te_xBearing := 1%Q; te_yBearing := (- gs_size g)%Q;
     te_width := (gs_size g / 2)%Q; te_height := (gs_size g * 5 / 4)%Q;
     te_xAdvance := (gs_size g / 2 + 2)%Q; te_yAdvance := 0%Q |}.

Definition sample_fresh : GState :=
  {| gs_family := EmptyString; gs_slant := FONT_SLANT_NORMAL;
     gs_weight := FONT_WEIGHT_NORMAL; gs_size := 10%Q |}.

(** A Linux box with the given [config.FONT_NAME] (or none). *)
Definition linux_env (cfg : option (gmap string string)) : Env :=
  {| sys_platform := "linux2";
     config_FONT_NAME := cfg;
     get_font_detail := fun _ => None;
     fonts_dir := EmptyString;
     cairo_fresh := sample_fresh;
     cairo_font_extents := sample_font_extents;
     cairo_text_extents := sample_text_extents |}.

(** A Windows box whose registry knows exactly one font, Consolas. *)
Definition win_registry (font_id : string) : option FontDetail :=
  if String.eqb font_id "Consolas"
  then Some {| filepath := "C:\Windows\Fonts\consola.ttf" |}
  else None.

Definition win_env (cfg : option (gmap string string)) : Env :=
  {| sys_platform := "win32";
     config_FONT_NAME := cfg;
     get_font_detail := win_registry;
     fonts_dir := "C:\Windows\Fonts";
     cairo_fresh := sample_fresh;
     cairo_font_extents := sample_font_extents;
     cairo_text_extents := sample_text_extents |}.

(** ** Runs of the module *)

(** One call from a client: [Font.get] with any arguments, or [getGlyph] on
    a font that a [Font.get] has handed out. The calls are taken whether
    they return or raise. *)
Inductive step (env : Env) : State -> State -> Prop :=
  | step_Font_get (k : FontKey) (s : State) :
      step env s (Font_get env k s).2
  | step_getGlyph (self : FontRef) (c : N) (s : State) :
      self ∈ (Font_get_cache s).*2 ->
      step env s (getGlyph env (self, c) s).2.

Definition reachable (env : Env) (s : State) : Prop :=
  rtc (step env) initial_state s.

(** A sequence of [Font.get] calls, results dropped. *)
Fixpoint run_gets (env : Env) (ks : list FontKey) (s : State) : State :=
  match ks with
  | [] => s
  | k :: ks' => run_gets env ks' (Font_get env k s).2
  end.

(** How many of the triples [ks] are new with respect to [seen] and to
    the triples before them. *)
Fixpoint fresh_keys (seen ks : list FontKey) : nat :=
  match ks with
  | [] => 0
  | k :: ks' =>
      if existsb (FontKey_eqb k) seen then fresh_keys seen ks'
      else S (fresh_keys (k :: seen) ks')
  end.

Definition distinct_keys (ks : list FontKey) : nat := fresh_keys [] ks.

Definition is_missing_config (r : LogRecord) : bool :=
  match r with
  | Error_NoFontNameSetting => true
  | _ => false
  end.

Definition missing_config_records (l : list LogRecord) : nat :=
  length (List.filter is_missing_config l).

(** ** The fallback chain in closed form

    What the two resolution blocks of [loadInto] compute, written as a
    function of the environment alone: the identifier they store, or the
    exception they raise. The lemmas [resolve_win_chain] and
    [resolve_other_chain] relate the blocks to it. *)

Definition or_else (v : option string) (default : string) : string :=
  match v with
  | Some x => if truthy v then x else default
  | None => default
  end.

Definition registry_path (env : Env) (font_id : string) : option string :=
  filepath <$> get_font_detail env font_id.

Definition default_win (env : Env) : string :=
  os_path_join (fonts_dir env) "arial.ttf".

Definition chain_win (env : Env) (isItalic : bool) : Result string :=
  match config_FONT_NAME env with
  | None => Ok (default_win env)
  | Some d =>
      if isItalic then
        let italic := d !! "italic" ≫= registry_path env in
        if truthy italic then Ok (or_else italic (default_win env))
        else match d !! "normal" with
             | Some v => Ok (or_else (registry_path env v) (default_win env))
             | None => Raise (KeyError "normal")
             end
      else Ok (or_else (d !! "normal" ≫= registry_path env) (default_win env))
  end.

Definition chain_other (env : Env) (isItalic : bool) : Result string :=
  match config_FONT_NAME env with
  | None => Ok "Helvetica"
  | Some d =>
      if isItalic then
        if truthy (d !! "italic") then Ok (or_else (d !! "italic") "Helvetica")
        else match d !! "normal" with
             | Some v => Ok (or_else (Some v) "Helvetica")
             | None => Raise (KeyError "normal")
             end
      else Ok (or_else (d !! "normal") "Helvetica")
  end.

Definition fallback_chain (env : Env) (isItalic : bool) : Result string :=
  if platform_is_win env then chain_win env isItalic
  else chain_other env isItalic.

(** The entry that the Windows block hands to [get_font_name] first: the
    "italic" entry of an italic request if there is one, else the
    "normal" entry. *)
Definition first_lookup (d : gmap string string) (isItalic : bool)
  : option string :=
  if isItalic then
    match d !! "italic" with
    | Some vi => Some vi
    | None => d !! "normal"
    end
  else d !! "normal".

(** Whether the Windows block fails to build the not-found message: no
    registry message was logged yet, and the first entry looked up is
    unknown to the registry and has a byte above 127. Every later lookup
    of the same block finds the flag set and builds no message. *)
Definition decode_error_win (env : Env) (logged isItalic : bool) : bool :=
  negb logged &&
  match config_FONT_NAME env with
  | Some d =>
      match first_lookup d isItalic with
      | Some v =>
          match get_font_detail env v with
          | Some _ => false
          | None => negb (is_ascii v)
          end
      | None => false
      end
  | None => false
  end.

Definition decode_error (env : Env) (logged isItalic : bool) : bool :=
  platform_is_win env && decode_error_win env logged isItalic.

(** The closed form of a resolution that starts with the flag at
    [logged]. *)
Definition chain_result (env : Env) (logged isItalic : bool) : Result string :=
  if decode_error env logged isItalic then Raise UnicodeDecodeError
  else fallback_chain env isItalic.

(** An entry whose lookup cannot fail to build its message: the platform
    is not Windows, or the registry knows the entry, or it is pure ASCII. *)
Definition loggable (env : Env) (v : string) : bool :=
  negb (platform_is_win env) ||
  match get_font_detail env v with
  | Some _ => true
  | None => is_ascii v
  end.


(** The context a call finds: the shared one, or the one that the first
    [Font.__init__] creates. *)
Definition context_or_fresh (env : Env) (s : State) : Cairo :=
  match Font_cairoContext s with
  | Some c => c
  | None => {| current := cairo_fresh env; saved := [] |}
  end.

(** What [loadInto] selects for a font whose identifier is resolved. *)
Definition selected (fid : string) (f : Font) : GState :=
  {| gs_family := fid; gs_slant := slant f; gs_weight := FONT_WEIGHT_NORMAL;
     gs_size := size f |}.

(** ** Invariant of the reachable states *)

Record wf (s : State) : Prop := mk_wf {
  wf_cached_resolved :
    forall r, r ∈ (Font_get_cache s).*2 ->
      exists f, fonts s !! r = Some f /\ truthy (font_name f) = true;
  wf_fonts_nodup : NoDup (Font_get_cache s).*2;
  wf_context : fonts s = [] \/ is_Some (Font_cairoContext s);
  wf_glyphs_bound :
    forall g, g ∈ (getGlyph_cache s).*2 -> g < length (glyphs s);
  wf_glyphs_nodup : NoDup (getGlyph_cache s).*2
}.

(** What every call preserves: objects handed out stay where they are and
    as they are, table entries stay, the context stays once created. *)
Record extends (s s' : State) : Prop := mk_extends {
  ext_Font_get_cache :
    forall k r, assoc FontKey_eqb k (Font_get_cache s) = Some r ->
      assoc FontKey_eqb k (Font_get_cache s') = Some r;
  ext_getGlyph_cache :
    forall k g, assoc GlyphKey_eqb k (getGlyph_cache s) = Some g ->
      assoc GlyphKey_eqb k (getGlyph_cache s') = Some g;
  ext_cached :
    forall r, r ∈ (Font_get_cache s).*2 -> r ∈ (Font_get_cache s').*2;
  ext_fonts :
    forall r f, fonts s !! r = Some f -> fonts s' !! r = Some f;
  ext_glyphs :
    forall g x, glyphs s !! g = Some x -> glyphs s' !! g = Some x;
  ext_context :
    is_Some (Font_cairoContext s) -> is_Some (Font_cairoContext s')
}.

(** The records that a resolution without [config.FONT_NAME] logs. *)
Definition no_config_log (env : Env) : list LogRecord :=
  if platform_is_win env
  then [Warning_UsingDefaultArial; Error_NoFontNameSetting]
  else [Error_NoFontNameSetting].

(** What a resolution block leaves alone: the context, the glyph store and
    both memo tables; the log only grows. *)
Definition resolution_frame (s s' : State) : Prop :=
  Font_cairoContext s' = Font_cairoContext s /\
  glyphs s' = glyphs s /\
  Font_get_cache s' = Font_get_cache s /\
  getGlyph_cache s' = getGlyph_cache s /\
  exists lg, log s' = lg ++ log s.

(** ** Vocabulary for the further properties *)

(** What the platform makes of a configured entry: the registry's file
    path on Windows ([get_font_name]), the entry itself elsewhere. *)
Definition resolve_entry (env : Env) (v : string) : option string :=
  if platform_is_win env then registry_path env v else Some v.

(** The identifier that ends the chain: [arial.ttf] in the fonts folder on
    Windows, ["Helvetica"] elsewhere. *)
Definition default_font (env : Env) : string :=
  if platform_is_win env then default_win env else "Helvetica".

(** The two records that only [get_font_name] writes. *)
Definition is_registry_record (r : LogRecord) : bool :=
  match r with
  | Info_FontUsed _ | Error_FontNotFound _ => true
  | _ => false
  end.

Definition registry_records (l : list LogRecord) : nat :=
  length (List.filter is_registry_record l).

(** A computation keeps [P] whether it returns or raises. *)
Definition preserves {A} (P : State -> Prop) (m : M A) : Prop :=
  forall s, P s -> P (m s).2.

(** [P] looks at nothing but the log and the flag. *)
Definition log_flag_only (P : State -> Prop) : Prop :=
  forall s s', log s' = log s -> used_font_logged s' = used_font_logged s ->
    P s -> P s'.

(** A computation that writes neither the log nor the flag. *)
Definition silent {A} (m : M A) : Prop :=
  forall s, log (m s).2 = log s /\
            used_font_logged (m s).2 = used_font_logged s.

(** The attributes of the font that a request for the triple [k] builds. *)
Definition font_of_key (env : Env) (k : FontKey) (f : Font) : Prop :=
  name f = k.1.1 /\ size f = k.1.2 /\ isItalic f = k.2 /\
  slant f = (if k.2 then FONT_SLANT_ITALIC else FONT_SLANT_NORMAL) /\
  exists x, fallback_chain env k.2 = Ok x /\ font_name f = Some x /\
            truthy (Some x) = true /\
            metrics f = Some (cairo_font_extents env (selected x f)).

(** The glyph that a request for character [c] on font [self] builds. *)
Definition glyph_of_key (env : Env) (s : State) (k : GlyphKey) (g : FontGlyph)
  : Prop :=
  exists f fid,
    fonts s !! k.1 = Some f /\ font_name f = Some fid /\
    g = glyph_of_extents (encode_UTF8 k.2) k.2 k.1
          (cairo_text_extents env (selected fid f) (encode_UTF8 k.2)).

(** The italic entry as the platform resolves it, if there is one. *)
Definition italic_candidate (env : Env) (d : gmap string string)
  : option string :=
  d !! "italic" ≫= resolve_entry env.

(** * Properties *)

Ltac unfold_monad :=
  unfold when, put_context, the_context, set_font_name, set_metrics, read_font,
    logging, set_used_font_logged, bind, ret, raise, gets, modify in *.

(** ** The default identifiers are usable *)

Lemma truthy_append p q : truthy (Some q) = true -> truthy (Some (p +:+ q)) = true.
Proof. destruct p; simpl; [done | by intros]. Qed.

Lemma chain_result_Ok env logged it x :
  chain_result env logged it = Ok x -> fallback_chain env it = Ok x.
Proof. unfold chain_result. by destruct (decode_error env logged it). Qed.

Lemma chain_result_no_error env logged it :
  decode_error env logged it = false ->
  chain_result env logged it = fallback_chain env it.
Proof. unfold chain_result. by intros ->. Qed.

Lemma decode_error_no_config env logged it :
  config_FONT_NAME env = None -> decode_error env logged it = false.
Proof.
  intros Hcfg. unfold decode_error, decode_error_win. rewrite Hcfg.
  by rewrite !andb_false_r.
Qed.

Lemma truthy_default_win env : truthy (Some (default_win env)) = true.
Proof.
  unfold default_win, os_path_join.
  destruct (last_char (fonts_dir env)) as [c|]; [|done].
  destruct (_ || _)%bool; by apply truthy_append.
Qed.

(** ** The resolution blocks against the closed form *)

Ltac solve_log_grows :=
  first [ by exists [] | by eexists [_] | by eexists [_; _]
        | by eexists [_; _; _] | by eexists [_; _; _; _] ].

Ltac solve_frame :=
  unfold resolution_frame; simpl; repeat split; try done; try solve_log_grows.

Ltac chain_case :=
  eexists; split; [|split];
  [ | | simpl; repeat split; reflexivity ];
  [ solve_frame | first [ done | by intros ] ].

Lemma resolve_other_chain env self it s :
  exists s', resolution_frame s s' /\
    (config_FONT_NAME env = None ->
       log s' = Error_NoFontNameSetting :: log s /\
       used_font_logged s' = used_font_logged s) /\
    match chain_other env it with
    | Ok x =>
        resolve_other env self it s = (Ok tt, s') /\
        truthy (Some x) = true /\
        fonts s' = alter (assign_font_name (Some x)) self (fonts s)
    | Raise e =>
        resolve_other env self it s = (Raise e, s') /\ fonts s' = fonts s
    end.
Proof.
  unfold resolve_other, chain_other, hasattr_FONT_NAME, has_key, getitem.
  destruct (config_FONT_NAME env) as [d|]; destruct it; unfold_monad; simpl.
  - destruct (d !! "italic") as [[|a i]|]; simpl;
      (destruct (d !! "normal") as [[|b n]|]; simpl); chain_case.
  - destruct (d !! "normal") as [[|b n]|]; simpl; chain_case.
  - chain_case.
  - chain_case.
Qed.

Ltac chain_win_case :=
  eexists; split; [|split];
  [ | | simpl; repeat split;
        first [ reflexivity | apply truthy_default_win ] ];
  [ solve_frame | first [ done | by intros ] ].

Lemma resolve_win_chain env self it s :
  exists s', resolution_frame s s' /\
    (config_FONT_NAME env = None ->
       log s' = Warning_UsingDefaultArial :: Error_NoFontNameSetting :: log s /\
       used_font_logged s' = used_font_logged s) /\
    match (if decode_error_win env (used_font_logged s) it
           then Raise UnicodeDecodeError else chain_win env it) with
    | Ok x =>
        resolve_win env self it s = (Ok tt, s') /\
        truthy (Some x) = true /\
        fonts s' = alter (assign_font_name (Some x)) self (fonts s)
    | Raise e =>
        resolve_win env self it s = (Raise e, s') /\ fonts s' = fonts s
    end.
Proof.
  unfold resolve_win, chain_win, decode_error_win, first_lookup,
    hasattr_FONT_NAME, has_key, getitem, get_font_name, format_not_found,
    registry_path.
  destruct s as [fl lg ctx fs gs c1 c2].
  destruct (config_FONT_NAME env) as [d|]; destruct it; unfold_monad; simpl.
  - destruct (d !! "italic") as [vi|]; simpl;
      [destruct (get_font_detail env vi) as [[[|a p]]|];
       [| |destruct (is_ascii vi)]|]; simpl;
      (destruct (d !! "normal") as [vn|]; simpl;
       [destruct (get_font_detail env vn) as [[[|b q]]|];
        [| |destruct (is_ascii vn)]|]); simpl;
      destruct fl; simpl; chain_win_case.
  - destruct (d !! "normal") as [vn|]; simpl;
      [destruct (get_font_detail env vn) as [[[|b q]]|];
       [| |destruct (is_ascii vn)]|]; simpl;
      destruct fl; simpl; chain_win_case.
  - destruct fl; chain_win_case.
  - destruct fl; chain_win_case.
Qed.

(** ** loadInto *)

(** The fast path: a font whose identifier is set only touches the context. *)
Lemma loadInto_resolved env self s f x c :
  fonts s !! self = Some f ->
  font_name f = Some x ->
  truthy (Some x) = true ->
  Font_cairoContext s = Some c ->
  loadInto env self s =
    (Ok tt, with_context (Some {| current := selected x f; saved := saved c |}) s).
Proof.
  intros Hf Hx Ht Hc.
  unfold loadInto, select_font_face, set_font_size. unfold_monad.
  destruct s as [fl lg ctx fs gs c1 c2]; simpl in *. subst ctx.
  destruct x as [|a x]; [discriminate|].
  destruct (platform_is_win env); simpl; rewrite Hf; simpl; rewrite Hx; simpl;
    rewrite Hf; simpl; rewrite Hx; simpl; rewrite Hf; reflexivity.
Qed.

(** The slow path: the resolution block runs, then the face is selected. *)
Lemma loadInto_unresolved env self s f c :
  fonts s !! self = Some f ->
  truthy (font_name f) = false ->
  Font_cairoContext s = Some c ->
  exists s',
    glyphs s' = glyphs s /\
    Font_get_cache s' = Font_get_cache s /\
    getGlyph_cache s' = getGlyph_cache s /\
    (exists lg, log s' = lg ++ log s) /\
    (config_FONT_NAME env = None ->
       log s' = no_config_log env ++ log s /\
       used_font_logged s' = used_font_logged s) /\
    match chain_result env (used_font_logged s) (isItalic f) with
    | Ok x =>
        loadInto env self s = (Ok tt, s') /\
        truthy (Some x) = true /\
        fonts s' = alter (assign_font_name (Some x)) self (fonts s) /\
        Font_cairoContext s' =
          Some {| current := selected x f; saved := saved c |}
    | Raise e =>
        loadInto env self s = (Raise e, s') /\
        fonts s' = fonts s /\
        Font_cairoContext s' = Some c
    end.
Proof.
  intros Hf Ht Hc.
  unfold loadInto, chain_result, decode_error, fallback_chain, no_config_log.
  destruct (platform_is_win env); cbn [andb].
  - destruct (resolve_win_chain env self (isItalic f) s)
      as (s1 & (Hc1 & Hg1 & Hk1 & Hq1 & Hl1) & Hn1 & Hch).
    destruct (if decode_error_win env (used_font_logged s) (isItalic f)
              then Raise UnicodeDecodeError
              else chain_win env (isItalic f)) as [x|e].
    + destruct Hch as (Hrun & Htx & Hfs).
      exists (with_context (Some {| current := selected x f; saved := saved c |}) s1).
      simpl. repeat split; try done;
        try (by destruct (Hn1 ltac:(assumption))).
      unfold select_font_face, set_font_size. unfold_monad. cbv beta.
      rewrite Hf. cbv beta iota. rewrite Ht. cbn [negb]. rewrite Hrun.
      cbv beta iota. rewrite Hfs, list_lookup_alter_eq, Hf.
      cbn [fmap option_fmap option_map]. cbv beta iota.
      rewrite Hc1, Hc. cbn.
      rewrite Hfs, list_lookup_alter_eq, Hf. reflexivity.
    + destruct Hch as (Hrun & Hfs).
      exists s1. repeat split; try done;
        try (by destruct (Hn1 ltac:(assumption))); [|congruence].
      unfold_monad. cbv beta. rewrite Hf. cbv beta iota. rewrite Ht.
      cbn [negb]. by rewrite Hrun.
  - destruct (resolve_other_chain env self (isItalic f) s)
      as (s1 & (Hc1 & Hg1 & Hk1 & Hq1 & Hl1) & Hn1 & Hch).
    destruct (chain_other env (isItalic f)) as [x|e].
    + destruct Hch as (Hrun & Htx & Hfs).
      exists (with_context (Some {| current := selected x f; saved := saved c |}) s1).
      simpl. repeat split; try done;
        try (by destruct (Hn1 ltac:(assumption))).
      unfold select_font_face, set_font_size. unfold_monad. cbv beta.
      rewrite Hf. cbv beta iota. rewrite Ht. cbn [negb]. rewrite Hrun.
      cbv beta iota. rewrite Hfs, list_lookup_alter_eq, Hf.
      cbn [fmap option_fmap option_map]. cbv beta iota.
      rewrite Hc1, Hc. cbn.
      rewrite Hfs, list_lookup_alter_eq, Hf. reflexivity.
    + destruct Hch as (Hrun & Hfs).
      exists s1. repeat split; try done;
        try (by destruct (Hn1 ltac:(assumption))); [|congruence].
      unfold_monad. cbv beta. rewrite Hf. cbv beta iota. rewrite Ht.
      cbn [negb]. by rewrite Hrun.
Qed.

(** ** Sequencing *)

Lemma bind_ok {A B} (m : M A) (k : A -> M B) s a s1 :
  m s = (Ok a, s1) -> bind m k s = k a s1.
Proof. unfold bind. by intros ->. Qed.

Lemma bind_raise {A B} (m : M A) (k : A -> M B) s e s1 :
  m s = (Raise e, s1) -> bind m k s = (Raise e, s1).
Proof. unfold bind. by intros ->. Qed.

Lemma alter_snoc {A} (g : A -> A) (l : list A) (a : A) :
  alter g (length l) (l ++ [a]) = l ++ [g a].
Proof. induction l as [|b l IH]; simpl; [done|]. by f_equal. Qed.

Lemma cairo_save_ok s c :
  Font_cairoContext s = Some c ->
  cairo_save s =
    (Ok tt, with_context (Some {| current := current c; saved := current c :: saved c |}) s).
Proof. intros Hc. unfold cairo_save. unfold_monad. by rewrite Hc. Qed.

Lemma ensure_context_ok env s :
  ensure_context env s = (Ok tt, with_context (Some (context_or_fresh env s)) s).
Proof.
  unfold ensure_context, context_or_fresh.
  destruct s as [fl lg [c|] fs gs c1 c2]; reflexivity.
Qed.

(** ** Font.__init__ *)

Lemma Font_init_spec env n sz it s :
  let f0 := {| name := n; size := sz; isItalic := it; font_name := None;
               slant := if it then FONT_SLANT_ITALIC else FONT_SLANT_NORMAL;
               metrics := None |} in
  let c0 := context_or_fresh env s in
  exists s',
    glyphs s' = glyphs s /\
    Font_get_cache s' = Font_get_cache s /\
    getGlyph_cache s' = getGlyph_cache s /\
    (exists lg, log s' = lg ++ log s) /\
    (config_FONT_NAME env = None ->
       log s' = no_config_log env ++ log s /\
       used_font_logged s' = used_font_logged s) /\
    match chain_result env (used_font_logged s) it with
    | Ok x =>
        Font_init env n sz it s = (Ok (length (fonts s)), s') /\
        truthy (Some x) = true /\
        fonts s' =
          fonts s ++
            [assign_metrics (cairo_font_extents env (selected x f0))
               (assign_font_name (Some x) f0)] /\
        Font_cairoContext s' = Some c0
    | Raise e =>
        Font_init env n sz it s = (Raise e, s') /\
        fonts s' = fonts s ++ [f0] /\
        Font_cairoContext s' =
          Some {| current := current c0; saved := current c0 :: saved c0 |}
    end.
Proof.
  intros f0 c0.
  set (s2 := with_context
               (Some {| current := current c0; saved := current c0 :: saved c0 |})
               (with_fonts (fonts s ++ [f0]) s)).
  assert (Hf2 : fonts s2 !! length (fonts s) = Some f0).
  { simpl. rewrite lookup_app_r by lia. by rewrite Nat.sub_diag. }
  destruct (loadInto_unresolved env (length (fonts s)) s2 f0
              {| current := current c0; saved := current c0 :: saved c0 |}
              Hf2 eq_refl eq_refl)
    as (s3 & Hg & Hk & Hq & Hl & Hn & Hch).
  assert (Hpre :
    Font_init env n sz it s =
      bind (loadInto env (length (fonts s)))
        (fun _ =>
           let! fe := font_extents env in
           do! set_metrics (length (fonts s)) fe in
           do! cairo_restore in
           ret (length (fonts s))) s2).
  { unfold Font_init.
    rewrite (bind_ok _ _ s (length (fonts s)) (with_fonts (fonts s ++ [f0]) s))
      by reflexivity.
    rewrite (bind_ok _ _ _ tt _ (ensure_context_ok env _)).
    erewrite bind_ok by (by apply cairo_save_ok).
    reflexivity. }
  rewrite Hpre. clear Hpre.
  simpl in Hf2, Hg, Hk, Hq, Hl, Hn.
  change (used_font_logged s2) with (used_font_logged s) in Hch.
  change (isItalic f0) with it in Hch.
  destruct (chain_result env (used_font_logged s) it) as [x|e].
  - destruct Hch as (Hrun & Htx & Hfs & Hctx).
    exists (with_context (Some c0)
              (with_fonts
                 (alter (assign_metrics (cairo_font_extents env (selected x f0)))
                    (length (fonts s)) (fonts s3)) s3)).
    simpl. split_and!; try done.
    + rewrite (bind_ok _ _ _ _ _ Hrun).
      unfold font_extents, cairo_restore. unfold_monad. cbv beta.
      repeat (rewrite Hctx; simpl). destruct c0; reflexivity.
    + rewrite Hfs. simpl. by rewrite !alter_snoc.
  - destruct Hch as (Hrun & Hfs & Hctx).
    exists s3. split_and!; try done.
    by rewrite (bind_raise _ _ _ _ _ Hrun).
Qed.

(** ** Memo tables *)

Section Assoc.

Context {K V : Type} (eqb : K -> K -> bool).
Hypothesis eqb_sym : forall a b, eqb a b = eqb b a.
Hypothesis eqb_trans :
  forall a b c, eqb a b = true -> eqb b c = true -> eqb a c = true.

Lemma assoc_proper k k' (l : list (K * V)) :
  eqb k k' = true -> assoc eqb k l = assoc eqb k' l.
Proof.
  intros Hk. induction l as [|[k0 v] l IH]; simpl; [done|].
  destruct (eqb k k0) eqn:E1, (eqb k' k0) eqn:E2; try done.
  - rewrite eqb_sym in Hk. by rewrite (eqb_trans _ _ _ Hk E1) in E2.
  - by rewrite (eqb_trans _ _ _ Hk E2) in E1.
Qed.

Lemma assoc_Some_elem k v (l : list (K * V)) :
  assoc eqb k l = Some v -> exists k', (k', v) ∈ l /\ eqb k k' = true.
Proof.
  induction l as [|[k0 v0] l IH]; simpl; [done|].
  destruct (eqb k k0) eqn:E.
  - intros [= ->]. exists k0. split; [left | done].
  - intros H. destruct (IH H) as (k' & Hin & Hk). exists k'. split; [by right | done].
Qed.

Lemma assoc_Some_value k v (l : list (K * V)) :
  assoc eqb k l = Some v -> v ∈ l.*2.
Proof.
  intros H. destruct (assoc_Some_elem _ _ _ H) as (k' & Hin & _).
  apply list_elem_of_fmap. by exists (k', v).
Qed.

Lemma NoDup_snd_key k1 k2 v (l : list (K * V)) :
  NoDup l.*2 -> (k1, v) ∈ l -> (k2, v) ∈ l -> k1 = k2.
Proof.
  induction l as [|[k0 v0] l IH]; simpl; intros Hnd H1 H2.
  - by apply elem_of_nil in H1.
  - apply NoDup_cons in Hnd as [Hnot Hnd].
    apply elem_of_cons in H1 as [[= -> ->]|H1];
      apply elem_of_cons in H2 as [[= ->]|H2]; try done.
    + exfalso. apply Hnot, list_elem_of_fmap. by exists (k2, v0).
    + subst. exfalso. apply Hnot, list_elem_of_fmap. by exists (k1, v0).
    + by apply IH.
Qed.

(** Two keys that find the same object are equal keys. *)
Lemma assoc_inj k1 k2 v (l : list (K * V)) :
  NoDup l.*2 ->
  assoc eqb k1 l = Some v -> assoc eqb k2 l = Some v -> eqb k1 k2 = true.
Proof.
  intros Hnd H1 H2.
  destruct (assoc_Some_elem _ _ _ H1) as (k1' & Hin1 & E1).
  destruct (assoc_Some_elem _ _ _ H2) as (k2' & Hin2 & E2).
  assert (k1' = k2') as -> by eauto using NoDup_snd_key.
  rewrite eqb_sym in E2. eauto.
Qed.

Lemma assoc_None_existsb k (l : list (K * V)) :
  assoc eqb k l = None <-> existsb (eqb k) l.*1 = false.
Proof.
  induction l as [|[k0 v0] l IH]; simpl; [done|].
  destruct (eqb k k0); simpl; [split; discriminate | done].
Qed.

(** An entry put in front of the table hides no older entry, because it
    is only put there after a miss. *)
Lemma assoc_cons_miss k v k' v' (l : list (K * V)) :
  assoc eqb k l = None ->
  assoc eqb k' l = Some v' ->
  assoc eqb k' ((k, v) :: l) = Some v'.
Proof.
  intros Hmiss Hhit. simpl. destruct (eqb k' k) eqn:E; [|done].
  rewrite (assoc_proper _ _ _ E), Hmiss in Hhit. done.
Qed.

End Assoc.

Lemma FontKey_eqb_sym a b : FontKey_eqb a b = FontKey_eqb b a.
Proof.
  destruct a as [[n1 s1] i1], b as [[n2 s2] i2]. unfold FontKey_eqb.
  rewrite (String.eqb_sym n1 n2). f_equal; [f_equal|].
  - apply eq_true_iff_eq. rewrite !Qeq_bool_iff. split; intros H; by symmetry.
  - by destruct i1, i2.
Qed.

Lemma FontKey_eqb_trans a b c :
  FontKey_eqb a b = true -> FontKey_eqb b c = true -> FontKey_eqb a c = true.
Proof.
  destruct a as [[n1 s1] i1], b as [[n2 s2] i2], c as [[n3 s3] i3].
  unfold FontKey_eqb. rewrite !andb_true_iff, !Qeq_bool_iff, !String.eqb_eq.
  intros [[-> H12] E12] [[-> H23] E23]. split_and!; [done| |].
  - by rewrite H12.
  - apply Bool.eqb_prop in E12, E23. subst. by destruct i3.
Qed.

Lemma FontKey_eqb_refl a : FontKey_eqb a a = true.
Proof.
  destruct a as [[n1 s1] i1]. unfold FontKey_eqb.
  rewrite !andb_true_iff, Qeq_bool_iff, String.eqb_eq.
  split_and!; [done|done|by destruct i1].
Qed.

Lemma GlyphKey_eqb_eq a b : GlyphKey_eqb a b = true <-> a = b.
Proof.
  destruct a as [f1 c1], b as [f2 c2]. unfold GlyphKey_eqb; simpl.
  rewrite andb_true_iff, Nat.eqb_eq, N.eqb_eq. split; [by intros [-> ->]|by intros [= -> ->]].
Qed.

Lemma GlyphKey_eqb_sym a b : GlyphKey_eqb a b = GlyphKey_eqb b a.
Proof.
  apply eq_true_iff_eq. rewrite !GlyphKey_eqb_eq. split; by intros ->.
Qed.

Lemma GlyphKey_eqb_trans a b c :
  GlyphKey_eqb a b = true -> GlyphKey_eqb b c = true -> GlyphKey_eqb a c = true.
Proof. rewrite !GlyphKey_eqb_eq. by intros -> ->. Qed.

Lemma memoized_hit {K V} eqb cache with_cache (f : K -> M V) k s v :
  assoc eqb k (cache s) = Some v ->
  memoized eqb cache with_cache f k s = (Ok v, s).
Proof. intros H. unfold memoized. unfold_monad. by rewrite H. Qed.

Lemma memoized_miss_ok {K V} eqb cache with_cache (f : K -> M V) k s v s1 :
  assoc eqb k (cache s) = None ->
  f k s = (Ok v, s1) ->
  memoized eqb cache with_cache f k s =
    (Ok v, with_cache ((k, v) :: cache s1) s1).
Proof. intros H Hf. unfold memoized. unfold_monad. by rewrite H, Hf. Qed.

Lemma memoized_miss_raise {K V} eqb cache with_cache (f : K -> M V) k s e s1 :
  assoc eqb k (cache s) = None ->
  f k s = (Raise e, s1) ->
  memoized eqb cache with_cache f k s = (Raise e, s1).
Proof. intros H Hf. unfold memoized. unfold_monad. by rewrite H, Hf. Qed.

(** ** Font.get and getGlyph, case by case *)

(** A call of [Font.get] either finds its arguments in the table and
    changes nothing, or runs the constructor on a new object. *)
Lemma Font_get_cases env n sz it s :
  (exists r,
     assoc FontKey_eqb (n, sz, it) (Font_get_cache s) = Some r /\
     Font_get env (n, sz, it) s = (Ok r, s))
  \/
  (assoc FontKey_eqb (n, sz, it) (Font_get_cache s) = None /\
   exists s',
     glyphs s' = glyphs s /\
     getGlyph_cache s' = getGlyph_cache s /\
     (exists lg, log s' = lg ++ log s) /\
     (config_FONT_NAME env = None ->
        log s' = no_config_log env ++ log s /\
        used_font_logged s' = used_font_logged s) /\
     match chain_result env (used_font_logged s) it with
     | Ok x =>
         Font_get env (n, sz, it) s = (Ok (length (fonts s)), s') /\
         truthy (Some x) = true /\
         (exists f, fonts s' = fonts s ++ [f] /\ font_name f = Some x /\
                    isItalic f = it) /\
         Font_cairoContext s' = Some (context_or_fresh env s) /\
         Font_get_cache s' = ((n, sz, it), length (fonts s)) :: Font_get_cache s
     | Raise e =>
         Font_get env (n, sz, it) s = (Raise e, s') /\
         (exists f, fonts s' = fonts s ++ [f]) /\
         is_Some (Font_cairoContext s') /\
         Font_get_cache s' = Font_get_cache s
     end).
Proof.
  destruct (assoc FontKey_eqb (n, sz, it) (Font_get_cache s)) as [r|] eqn:Hhit.
  - left. exists r. split; [done|]. by apply memoized_hit.
  - right. split; [done|].
    destruct (Font_init_spec env n sz it s)
      as (s1 & Hg & Hk & Hq & Hl & Hn & Hch).
    destruct (chain_result env (used_font_logged s) it) as [x|e].
    + destruct Hch as (Hrun & Htx & Hfs & Hctx).
      exists (with_Font_get_cache
                (((n, sz, it), length (fonts s)) :: Font_get_cache s1) s1).
      simpl. split_and!; try done; try (by rewrite Hk);
        try (eexists; split; [exact Hfs|done]).
      unfold Font_get. by erewrite memoized_miss_ok.
    + destruct Hch as (Hrun & Hfs & Hctx).
      exists s1. split_and!; try done; try (by eexists); try (by rewrite Hctx).
      unfold Font_get. by erewrite memoized_miss_raise.
Qed.

(** The glyph constructor on a font whose identifier is resolved. *)
Lemma FontGlyph_init_resolved env ch self s f x c :
  fonts s !! self = Some f ->
  font_name f = Some x ->
  truthy (Some x) = true ->
  Font_cairoContext s = Some c ->
  FontGlyph_init env ch self s =
    (Ok (length (glyphs s)),
     with_glyphs
       (glyphs s ++
          [glyph_of_extents (encode_UTF8 ch) ch self
             (cairo_text_extents env (selected x f) (encode_UTF8 ch))]) s).
Proof.
  intros Hf Hx Ht Hc. unfold FontGlyph_init.
  erewrite bind_ok by (by apply cairo_save_ok).
  erewrite bind_ok by (by eapply loadInto_resolved).
  unfold text_extents, cairo_restore, alloc_glyph. unfold_monad. simpl.
  destruct s as [fl lg ctx fs gs c1 c2]; simpl in *. subst ctx.
  destruct c; reflexivity.
Qed.

Lemma getGlyph_cases env self ch s f x c :
  fonts s !! self = Some f ->
  font_name f = Some x ->
  truthy (Some x) = true ->
  Font_cairoContext s = Some c ->
  (exists g,
     assoc GlyphKey_eqb (self, ch) (getGlyph_cache s) = Some g /\
     getGlyph env (self, ch) s = (Ok g, s))
  \/
  (assoc GlyphKey_eqb (self, ch) (getGlyph_cache s) = None /\
   getGlyph env (self, ch) s =
     (Ok (length (glyphs s)),
      with_getGlyph_cache
        (((self, ch), length (glyphs s)) :: getGlyph_cache s)
        (with_glyphs
           (glyphs s ++
              [glyph_of_extents (encode_UTF8 ch) ch self
                 (cairo_text_extents env (selected x f) (encode_UTF8 ch))]) s))).
Proof.
  intros Hf Hx Ht Hc.
  destruct (assoc GlyphKey_eqb (self, ch) (getGlyph_cache s)) as [g|] eqn:Hhit.
  - left. exists g. split; [done|]. by apply memoized_hit.
  - right. split; [done|]. unfold getGlyph.
    by rewrite (memoized_miss_ok _ _ _ _ _ _ _ _ Hhit
                  (FontGlyph_init_resolved env ch self s f x c Hf Hx Ht Hc)).
Qed.

(** What a miss puts into the glyph store: the extents that the backend
    reports for the character under the font's face and size, run through
    the assignments of the constructor. *)
Lemma getGlyph_builds env self ch s f x c g s' :
  fonts s !! self = Some f ->
  font_name f = Some x ->
  truthy (Some x) = true ->
  Font_cairoContext s = Some c ->
  assoc GlyphKey_eqb (self, ch) (getGlyph_cache s) = None ->
  getGlyph env (self, ch) s = (Ok g, s') ->
  glyphs s' !! g =
    Some (glyph_of_extents (encode_UTF8 ch) ch self
            (cairo_text_extents env (selected x f) (encode_UTF8 ch))).
Proof.
  intros Hf Hx Ht Hc Hmiss Hget.
  destruct (getGlyph_cases env self ch s f x c Hf Hx Ht Hc)
    as [(g0 & Hhit & _)|(_ & Heq)]; [congruence|].
  rewrite Heq in Hget. injection Hget as <- <-. simpl.
  rewrite lookup_app_r by lia. by rewrite Nat.sub_diag.
Qed.

(** ** The invariant along runs *)

Lemma extends_refl s : extends s s.
Proof. by split. Qed.

Lemma extends_trans s1 s2 s3 : extends s1 s2 -> extends s2 s3 -> extends s1 s3.
Proof.
  intros [A1 B1 C1 D1 E1 F1] [A2 B2 C2 D2 E2 F2]. split; eauto.
Qed.

Lemma wf_initial : wf initial_state.
Proof.
  split; simpl; try (intros ? H; by apply elem_of_nil in H);
    try apply NoDup_nil_2. by left.
Qed.

Lemma wf_cached_bound s r :
  wf s -> r ∈ (Font_get_cache s).*2 -> r < length (fonts s).
Proof.
  intros Hwf Hr. destruct (wf_cached_resolved s Hwf r Hr) as (f & Hf & _).
  by eapply lookup_lt_Some.
Qed.

Lemma wf_cached_context s r :
  wf s -> r ∈ (Font_get_cache s).*2 -> is_Some (Font_cairoContext s).
Proof.
  intros Hwf Hr. pose proof (wf_cached_bound s r Hwf Hr) as Hlt.
  destruct (wf_context s Hwf) as [Hnil|Hc]; [|done].
  rewrite Hnil in Hlt. simpl in Hlt. lia.
Qed.

Lemma Font_get_step env k s :
  wf s -> wf (Font_get env k s).2 /\ extends s (Font_get env k s).2.
Proof.
  intros Hwf. destruct k as [[n sz] it].
  destruct (Font_get_cases env n sz it s)
    as [(r & Hhit & ->)|(Hmiss & s' & Hg & Hq & Hl & Hn & Hch)].
  { simpl. split; [done|apply extends_refl]. }
  destruct (chain_result env (used_font_logged s) it) as [x|e].
  - destruct Hch as (-> & Htx & (f & Hfs & Hfn & Hit) & Hctx & Hcache). simpl.
    split; [split|split].
    + intros r. rewrite Hcache, fmap_cons, elem_of_cons. simpl.
      intros [->|Hr].
      * exists f. rewrite Hfs, lookup_app_r by lia.
        rewrite Nat.sub_diag. simpl. by rewrite Hfn.
      * destruct (wf_cached_resolved s Hwf r Hr) as (f0 & Hf0 & Ht0).
        exists f0. split; [|done]. rewrite Hfs. by apply lookup_app_l_Some.
    + rewrite Hcache, fmap_cons. simpl. apply NoDup_cons. split.
      * intros Hin. apply (wf_cached_bound s _ Hwf) in Hin. lia.
      * by apply wf_fonts_nodup.
    + right. by rewrite Hctx.
    + rewrite Hq, Hg. by apply wf_glyphs_bound.
    + rewrite Hq. by apply wf_glyphs_nodup.
    + intros k r Hk. rewrite Hcache.
      eapply assoc_cons_miss;
        eauto using FontKey_eqb_sym, FontKey_eqb_trans.
    + by rewrite Hq.
    + intros r Hr. rewrite Hcache, fmap_cons. by right.
    + intros r f0 Hf0. rewrite Hfs. by apply lookup_app_l_Some.
    + by rewrite Hg.
    + by rewrite Hctx.
  - destruct Hch as (-> & (f & Hfs) & Hctx & Hcache). simpl.
    split; [split|split].
    + intros r. rewrite Hcache. intros Hr.
      destruct (wf_cached_resolved s Hwf r Hr) as (f0 & Hf0 & Ht0).
      exists f0. split; [|done]. rewrite Hfs. by apply lookup_app_l_Some.
    + rewrite Hcache. by apply wf_fonts_nodup.
    + by right.
    + rewrite Hq, Hg. by apply wf_glyphs_bound.
    + rewrite Hq. by apply wf_glyphs_nodup.
    + by rewrite Hcache.
    + by rewrite Hq.
    + by rewrite Hcache.
    + intros r f0 Hf0. rewrite Hfs. by apply lookup_app_l_Some.
    + by rewrite Hg.
    + done.
Qed.

Lemma getGlyph_step env self ch s :
  wf s -> self ∈ (Font_get_cache s).*2 ->
  (exists g, (getGlyph env (self, ch) s).1 = Ok g) /\
  wf (getGlyph env (self, ch) s).2 /\
  extends s (getGlyph env (self, ch) s).2 /\
  Font_cairoContext (getGlyph env (self, ch) s).2 = Font_cairoContext s /\
  fonts (getGlyph env (self, ch) s).2 = fonts s /\
  Font_get_cache (getGlyph env (self, ch) s).2 = Font_get_cache s.
Proof.
  intros Hwf Hself.
  destruct (wf_cached_resolved s Hwf self Hself) as (f & Hf & Ht).
  destruct (wf_cached_context s self Hwf Hself) as [c Hc].
  destruct (font_name f) as [x|] eqn:Hx; [|done].
  destruct (getGlyph_cases env self ch s f x c Hf Hx Ht Hc)
    as [(g & Hhit & ->)|(Hmiss & ->)]; simpl.
  { split_and!; eauto using extends_refl. }
  split_and!; eauto.
  - split; simpl; try by destruct Hwf.
    + intros g. rewrite elem_of_cons, length_app. simpl.
      intros [->|Hg]; [lia|]. apply (wf_glyphs_bound s Hwf) in Hg. lia.
    + apply NoDup_cons. split; [|by apply wf_glyphs_nodup].
      intros Hin. apply (wf_glyphs_bound s Hwf) in Hin. lia.
  - split; simpl; try done.
    + intros k g Hk. eapply assoc_cons_miss;
        eauto using GlyphKey_eqb_sym, GlyphKey_eqb_trans.
    + intros g y Hy. by apply lookup_app_l_Some.
Qed.

Lemma step_wf_extends env s s' :
  wf s -> step env s s' -> wf s' /\ extends s s'.
Proof.
  intros Hwf Hstep. destruct Hstep as [k s0|self ch s0 Hself].
  - by apply Font_get_step.
  - destruct (getGlyph_step env self ch s0 Hwf Hself) as (_ & ? & ? & _). done.
Qed.

Lemma steps_wf_extends env s s' :
  wf s -> rtc (step env) s s' -> wf s' /\ extends s s'.
Proof.
  intros Hwf Hsteps. induction Hsteps as [s|s1 s2 s3 H12 H23 IH].
  - split; [done|apply extends_refl].
  - destruct (step_wf_extends env s1 s2 Hwf H12) as [Hwf2 He12].
    destruct (IH Hwf2) as [Hwf3 He23].
    split; [done|by eapply extends_trans].
Qed.

Lemma reachable_wf env s : reachable env s -> wf s.
Proof. intros H. by destruct (steps_wf_extends env _ _ wf_initial H). Qed.

Lemma Font_get_Ok_cached env k s r s' :
  Font_get env k s = (Ok r, s') ->
  assoc FontKey_eqb k (Font_get_cache s') = Some r.
Proof.
  destruct k as [[n sz] it]. intros Hrun.
  destruct (Font_get_cases env n sz it s)
    as [(r0 & Hhit & Heq)|(Hmiss & s0 & _ & _ & _ & _ & Hch)].
  { rewrite Heq in Hrun. by injection Hrun as -> ->. }
  destruct (chain_result env (used_font_logged s) it) as [x|e].
  - destruct Hch as (Heq & _ & _ & _ & Hcache).
    rewrite Heq in Hrun. injection Hrun as <- <-.
    rewrite Hcache. cbn [assoc]. by rewrite FontKey_eqb_refl.
  - destruct Hch as (Heq & _). rewrite Heq in Hrun. discriminate.
Qed.

Lemma run_gets_steps env ks s : rtc (step env) s (run_gets env ks s).
Proof.
  revert s. induction ks as [|k ks IH]; intros s; simpl; [done|].
  eapply rtc_l; [apply step_Font_get | apply IH].
Qed.

Lemma reachable_run_gets env ks : reachable env (run_gets env ks initial_state).
Proof. apply run_gets_steps. Qed.


(** * The claims *)

(** ** Resolution always ends in a font (C1) *)

(** C1. The claim: for every settings object and every request,
    [Font.get] returns a font with a non-null identifier and never raises.
    The italic branch of [loadInto] subscripts [config.FONT_NAME["normal"]]
    without the [has_key] test that the non-italic branch makes, so a
    mapping without a "normal" entry makes an italic request raise
    [KeyError]: on Linux with the empty mapping, and on Windows with an
    "italic" entry that the registry does not know. *)
Theorem Font_get_KeyError_without_normal :
  (Font_get (linux_env (Some ∅)) ("Arial", 12%Q, true) initial_state).1
    = Raise (KeyError "normal") /\
  (Font_get (win_env (Some {[ "italic" := "Garamond Italic" ]}))
     ("Arial", 12%Q, true) initial_state).1
    = Raise (KeyError "normal").
Proof. split; vm_compute; reflexivity. Qed.

(** With a "normal" entry present, or no settings at all, the chain does
    end: the closed form is never an exception. *)
Lemma fallback_chain_total env it :
  (forall d, config_FONT_NAME env = Some d -> is_Some (d !! "normal")) ->
  exists x, fallback_chain env it = Ok x.
Proof.
  intros Hnormal. unfold fallback_chain, chain_win, chain_other.
  destruct (config_FONT_NAME env) as [d|].
  - destruct (Hnormal d eq_refl) as [v Hv]. rewrite Hv.
    destruct (platform_is_win env), it; try (by eexists);
      match goal with |- context [if ?b then _ else _] => destruct b end;
      by eexists.
  - destruct (platform_is_win env); by eexists.
Qed.

(** ** Glyph metrics (C2, C8) *)

(** The vertical extents always differ by the height, with [yMin] on the
    far side. *)
Lemma glyph_yMin_yMax utf8 ch self te :
  (yMin (glyph_of_extents utf8 ch self te) ==
   yMax (glyph_of_extents utf8 ch self te) + te_height te)%Q.
Proof. simpl. reflexivity. Qed.

(** C2. The claim: [xMin = xBearing], [xMax = xBearing + width],
    [advance = xAdvance], and [yMin <= yMax] whenever [height >= 0], as in
    the glyph diagram that the source comment cites. The horizontal part
    holds; for the vertical part the constructor computes
    [yMin = -yBearing + height], which lies above [yMax = -yBearing]: for
    a glyph that rises 10 above the baseline and is 12 high, [yMin] is 22
    and [yMax] is 10. *)
Theorem glyph_yMin_exceeds_yMax :
  let te := {| te_xBearing := 1; te_yBearing := -10; te_width := 8;
               te_height := 12; te_xAdvance := 10; te_yAdvance := 0 |}%Q in
  let g := glyph_of_extents "A" 65%N 0 te in
  (0 <= te_height te)%Q /\
  xMin g = te_xBearing te /\
  xMax g = (te_xBearing te + te_width te)%Q /\
  advance g = te_xAdvance te /\
  (yMax g == 10)%Q /\ (yMin g == 22)%Q /\ (yMax g < yMin g)%Q.
Proof. simpl. split_and!; try reflexivity; try done. Qed.

(** C8. For a glyph whose backend extents have [width >= 0] and
    [xAdvance >= 0], the constructed glyph has [xMin <= xMax] and
    [advance >= 0]. *)
Theorem glyph_x_extent_ordered utf8 ch self te :
  (0 <= te_width te)%Q ->
  (0 <= te_xAdvance te)%Q ->
  (xMin (glyph_of_extents utf8 ch self te) <=
   xMax (glyph_of_extents utf8 ch self te))%Q /\
  (0 <= advance (glyph_of_extents utf8 ch self te))%Q.
Proof. intros Hw Ha. simpl. split; lra. Qed.

Lemma glyph_x_extent_ordered_witness :
  let te := sample_text_extents sample_fresh "A" in
  (xMin (glyph_of_extents "A" 65%N 0 te) <=
   xMax (glyph_of_extents "A" 65%N 0 te))%Q /\
  (0 <= advance (glyph_of_extents "A" 65%N 0 te))%Q.
Proof.
  apply (glyph_x_extent_ordered "A" 65%N 0 (sample_text_extents sample_fresh "A"));
    vm_compute; discriminate.
Defined.

(** ** Kerning (C9) *)

(** C9. [getKerningDistance] returns exactly 0.0 for every pair of
    characters, on every font and in every state, and changes nothing. *)
Theorem getKerningDistance_zero (self : nat) (charLeft charRight : N) (s : State) :
  getKerningDistance self charLeft charRight s = (Ok 0%Q, s).
Proof. reflexivity. Qed.

(** ** The flyweight pool (C3) *)

(** C3. Two calls of [Font.get] with equal argument triples return the
    identical [Font] object, and calls with differing triples return
    distinct objects: once a call has returned [r1], every later call with
    an equal triple returns [r1] and runs nothing, and no later call with
    a different triple returns [r1]. *)
Theorem Font_get_flyweight env s k1 r1 s1 s2 k2 :
  reachable env s ->
  Font_get env k1 s = (Ok r1, s1) ->
  rtc (step env) s1 s2 ->
  (FontKey_eqb k1 k2 = true -> Font_get env k2 s2 = (Ok r1, s2)) /\
  (FontKey_eqb k1 k2 = false ->
     forall r2 s3, Font_get env k2 s2 = (Ok r2, s3) -> r2 <> r1).
Proof.
  intros Hreach Hget Hsteps.
  pose proof (reachable_wf env s Hreach) as Hwf.
  pose proof (Font_get_Ok_cached env k1 s r1 s1 Hget) as Hc1.
  destruct (Font_get_step env k1 s Hwf) as [Hwf1 _].
  rewrite Hget in Hwf1. simpl in Hwf1.
  destruct (steps_wf_extends env s1 s2 Hwf1 Hsteps) as [Hwf2 Hext].
  pose proof (ext_Font_get_cache s1 s2 Hext k1 r1 Hc1) as Hc2.
  split.
  - intros Heq. apply memoized_hit.
    rewrite <- (assoc_proper FontKey_eqb FontKey_eqb_sym FontKey_eqb_trans
                  k1 k2 _ Heq). done.
  - intros Hne r2 s3 Hget2 ->.
    destruct k2 as [[n sz] it].
    destruct (Font_get_cases env n sz it s2)
      as [(r0 & Hhit & Heq)|(Hmiss & s0 & _ & _ & _ & _ & Hch)].
    + rewrite Heq in Hget2. injection Hget2 as -> <-.
      rewrite (assoc_inj FontKey_eqb FontKey_eqb_sym FontKey_eqb_trans
                 k1 (n, sz, it) r1 _ (wf_fonts_nodup s2 Hwf2) Hc2 Hhit) in Hne.
      discriminate.
    + destruct (chain_result env (used_font_logged s2) it) as [x|e].
      * destruct Hch as (Heq & _). rewrite Heq in Hget2.
        injection Hget2 as Hlen _.
        assert (r1 < length (fonts s2)); [|lia].
        eapply wf_cached_bound; [done|].
        by eapply assoc_Some_value.
      * destruct Hch as (Heq & _). rewrite Heq in Hget2. discriminate.
Qed.

Lemma Font_get_flyweight_witness :
  let env := linux_env None in
  let s1 := (Font_get env ("Arial", 14%Q, false) initial_state).2 in
  Font_get env ("Arial", (28 # 2)%Q, false) s1 = (Ok 0, s1) /\
  forall r2 s3,
    Font_get env ("Arial", 14%Q, true) s1 = (Ok r2, s3) -> r2 <> 0.
Proof.
  intros env s1. split.
  - apply (Font_get_flyweight env initial_state ("Arial", 14%Q, false) 0 s1 s1
             ("Arial", (28 # 2)%Q, false)).
    + apply rtc_refl.
    + reflexivity.
    + apply rtc_refl.
    + reflexivity.
  - apply (Font_get_flyweight env initial_state ("Arial", 14%Q, false) 0 s1 s1
             ("Arial", 14%Q, true)).
    + apply rtc_refl.
    + reflexivity.
    + apply rtc_refl.
    + reflexivity.
Defined.

(** ** The glyph cache (C7) *)

(** C7. On a font handed out by [Font.get], [getGlyph] returns; every
    later call with the same character returns the identical [FontGlyph]
    object and runs nothing; no later call on that font with a different
    character returns that object. *)
Theorem getGlyph_memoized env s self c :
  reachable env s ->
  self ∈ (Font_get_cache s).*2 ->
  exists g s1,
    getGlyph env (self, c) s = (Ok g, s1) /\
    forall s2, rtc (step env) s1 s2 ->
      getGlyph env (self, c) s2 = (Ok g, s2) /\
      forall c' g' s3,
        c' <> c -> getGlyph env (self, c') s2 = (Ok g', s3) -> g' <> g.
Proof.
  intros Hreach Hself.
  pose proof (reachable_wf env s Hreach) as Hwf.
  destruct (getGlyph_step env self c s Hwf Hself)
    as ((g & Hg) & Hwf1 & Hext1 & _).
  destruct (getGlyph env (self, c) s) as [res s1] eqn:Hrun.
  simpl in Hg, Hwf1, Hext1. subst res. exists g, s1. split; [done|].
  assert (Hc1 : assoc GlyphKey_eqb (self, c) (getGlyph_cache s1) = Some g).
  { destruct (wf_cached_resolved s Hwf self Hself) as (f & Hf & Ht).
    destruct (wf_cached_context s self Hwf Hself) as [ctx Hctx].
    destruct (font_name f) as [x|] eqn:Hx; [|done].
    destruct (getGlyph_cases env self c s f x ctx Hf Hx Ht Hctx)
      as [(g0 & Hhit & Heq)|(Hmiss & Heq)]; rewrite Heq in Hrun.
    - by injection Hrun as -> ->.
    - injection Hrun as <- <-. cbn [getGlyph_cache with_getGlyph_cache assoc].
      by rewrite (proj2 (GlyphKey_eqb_eq _ _) eq_refl). }
  intros s2 Hsteps.
  destruct (steps_wf_extends env s1 s2 Hwf1 Hsteps) as [Hwf2 Hext2].
  pose proof (ext_getGlyph_cache s1 s2 Hext2 _ _ Hc1) as Hc2.
  split; [by apply memoized_hit|].
  intros c' g' s3 Hne Hget ->.
  assert (Hself2 : self ∈ (Font_get_cache s2).*2).
  { apply (ext_cached s1 s2 Hext2), (ext_cached s s1 Hext1), Hself. }
  destruct (wf_cached_resolved s2 Hwf2 self Hself2) as (f & Hf & Ht).
  destruct (wf_cached_context s2 self Hwf2 Hself2) as [ctx Hctx].
  destruct (font_name f) as [x|] eqn:Hx; [|done].
  destruct (getGlyph_cases env self c' s2 f x ctx Hf Hx Ht Hctx)
    as [(g0 & Hhit & Heq)|(Hmiss & Heq)]; rewrite Heq in Hget.
  - injection Hget as -> <-.
    pose proof (assoc_inj GlyphKey_eqb GlyphKey_eqb_sym GlyphKey_eqb_trans
                  _ _ _ _ (wf_glyphs_nodup s2 Hwf2) Hc2 Hhit) as Hk.
    apply GlyphKey_eqb_eq in Hk. by injection Hk as ->.
  - injection Hget as Hlen _.
    assert (g < length (glyphs s2)); [|lia].
    eapply wf_glyphs_bound; [done|]. by eapply assoc_Some_value.
Qed.

Lemma getGlyph_memoized_witness :
  let env := linux_env None in
  let s := (Font_get env ("Arial", 14%Q, false) initial_state).2 in
  exists g s1,
    getGlyph env (0, 65%N) s = (Ok g, s1) /\
    forall s2, rtc (step env) s1 s2 ->
      getGlyph env (0, 65%N) s2 = (Ok g, s2) /\
      forall c' g' s3,
        c' <> 65%N -> getGlyph env (0, c') s2 = (Ok g', s3) -> g' <> g.
Proof.
  intros env s. apply (getGlyph_memoized env s 0 65%N).
  - eapply rtc_l; [apply step_Font_get | apply rtc_refl].
  - vm_compute. constructor.
Defined.

(** ** Resolution happens once (C6) *)

(** C6. Once [Font.get] has returned a font, its [font_name] is a
    non-empty identifier, and after any further calls the font object is
    unchanged and [loadInto] on it only selects the stored identifier,
    slant and size into the context: nothing is logged, no attribute is
    written, and the settings, platform and registry are not consulted
    (the result is the same under every environment). *)
Theorem font_name_resolved_once env s k r s1 :
  reachable env s ->
  Font_get env k s = (Ok r, s1) ->
  exists f fid,
    fonts s1 !! r = Some f /\
    font_name f = Some fid /\
    truthy (Some fid) = true /\
    forall s2, rtc (step env) s1 s2 ->
      fonts s2 !! r = Some f /\
      exists c2,
        Font_cairoContext s2 = Some c2 /\
        forall env',
          loadInto env' r s2 =
            (Ok tt,
             with_context
               (Some {| current := selected fid f; saved := saved c2 |}) s2).
Proof.
  intros Hreach Hget.
  pose proof (reachable_wf env s Hreach) as Hwf.
  destruct (Font_get_step env k s Hwf) as [Hwf1 _].
  rewrite Hget in Hwf1. simpl in Hwf1.
  assert (Hr : r ∈ (Font_get_cache s1).*2).
  { eapply assoc_Some_value. by eapply Font_get_Ok_cached. }
  destruct (wf_cached_resolved s1 Hwf1 r Hr) as (f & Hf & Ht).
  destruct (font_name f) as [fid|] eqn:Hfid; [|done].
  exists f, fid. split_and!; try done.
  intros s2 Hsteps.
  destruct (steps_wf_extends env s1 s2 Hwf1 Hsteps) as [Hwf2 Hext].
  pose proof (ext_fonts s1 s2 Hext r f Hf) as Hf2. split; [done|].
  destruct (ext_context s1 s2 Hext (wf_cached_context s1 r Hwf1 Hr)) as [c2 Hc2].
  exists c2. split; [done|]. intros env'.
  by apply (loadInto_resolved env' r s2 f fid c2).
Qed.

Lemma font_name_resolved_once_witness :
  let env := linux_env (Some {[ "normal" := "Consolas" ]}) in
  let s1 := (Font_get env ("Arial", 14%Q, false) initial_state).2 in
  exists f fid,
    fonts s1 !! 0 = Some f /\
    font_name f = Some fid /\
    truthy (Some fid) = true /\
    forall s2, rtc (step env) s1 s2 ->
      fonts s2 !! 0 = Some f /\
      exists c2,
        Font_cairoContext s2 = Some c2 /\
        forall env',
          loadInto env' 0 s2 =
            (Ok tt,
             with_context
               (Some {| current := selected fid f; saved := saved c2 |}) s2).
Proof.
  intros env s1.
  apply (font_name_resolved_once env initial_state ("Arial", 14%Q, false) 0 s1).
  - apply rtc_refl.
  - vm_compute. reflexivity.
Defined.

(** ** The shared context is left as it was found (C10) *)

(** C10. [Font.__init__] and [FontGlyph.__init__] save the shared context
    before [loadInto] selects face and size into it and restore it before
    returning: after [Font.get] returns, the context is the one the call
    found (the newly created one for the very first font), and after
    [getGlyph] returns it is unchanged, saved states included. *)
Theorem cairo_context_restored env s :
  reachable env s ->
  (forall k r s', Font_get env k s = (Ok r, s') ->
     Font_cairoContext s' = Some (context_or_fresh env s)) /\
  (forall self c g s', self ∈ (Font_get_cache s).*2 ->
     getGlyph env (self, c) s = (Ok g, s') ->
     Font_cairoContext s' = Font_cairoContext s).
Proof.
  intros Hreach. pose proof (reachable_wf env s Hreach) as Hwf. split.
  - intros [[n sz] it] r s' Hget.
    destruct (Font_get_cases env n sz it s)
      as [(r0 & Hhit & Heq)|(Hmiss & s0 & _ & _ & _ & _ & Hch)].
    + rewrite Heq in Hget. injection Hget as <- <-.
      apply assoc_Some_value in Hhit.
      destruct (wf_cached_context s r0 Hwf Hhit) as [c Hc].
      unfold context_or_fresh. by rewrite Hc.
    + destruct (chain_result env (used_font_logged s) it) as [x|e].
      * destruct Hch as (Heq & _ & _ & Hctx & _).
        rewrite Heq in Hget. by injection Hget as <- <-.
      * destruct Hch as (Heq & _). rewrite Heq in Hget. discriminate.
  - intros self c g s' Hself Hget.
    destruct (getGlyph_step env self c s Hwf Hself) as (_ & _ & _ & Hctx & _).
    by rewrite Hget in Hctx.
Qed.

Lemma cairo_context_restored_witness :
  let env := win_env (Some {[ "normal" := "Consolas" ]}) in
  let s := (Font_get env ("Arial", 14%Q, false) initial_state).2 in
  (forall k r s', Font_get env k s = (Ok r, s') ->
     Font_cairoContext s' = Some (context_or_fresh env s)) /\
  (forall self c g s', self ∈ (Font_get_cache s).*2 ->
     getGlyph env (self, c) s = (Ok g, s') ->
     Font_cairoContext s' = Font_cairoContext s).
Proof.
  intros env s. apply (cairo_context_restored env s).
  eapply rtc_l; [apply step_Font_get | apply rtc_refl].
Defined.

(** ** Diagnostics without settings (C4) *)

Lemma fallback_chain_no_config env it :
  config_FONT_NAME env = None -> exists x, fallback_chain env it = Ok x.
Proof.
  intros Hcfg. apply fallback_chain_total. intros d Hd. congruence.
Qed.

Lemma missing_config_no_config_log env l :
  missing_config_records (no_config_log env ++ l) = S (missing_config_records l).
Proof.
  unfold missing_config_records, no_config_log.
  destruct (platform_is_win env); reflexivity.
Qed.

Lemma run_gets_no_config env ks s :
  config_FONT_NAME env = None ->
  missing_config_records (log (run_gets env ks s)) =
    missing_config_records (log s) + fresh_keys (Font_get_cache s).*1 ks /\
  length (log (run_gets env ks s)) =
    length (log s) +
    length (no_config_log env) * fresh_keys (Font_get_cache s).*1 ks /\
  used_font_logged (run_gets env ks s) = used_font_logged s.
Proof.
  intros Hcfg. revert s. induction ks as [|[[n sz] it] ks IH]; intros s; simpl.
  { split_and!; try lia; try done. }
  destruct (Font_get_cases env n sz it s)
    as [(r & Hhit & Heq)|(Hmiss & s' & _ & _ & _ & Hn & Hch)].
  - rewrite Heq. simpl.
    destruct (existsb (FontKey_eqb (n, sz, it)) (Font_get_cache s).*1) eqn:Hex.
    + apply IH.
    + apply assoc_None_existsb in Hex. congruence.
  - apply assoc_None_existsb in Hmiss. rewrite Hmiss.
    destruct (fallback_chain_no_config env it Hcfg) as [x Hx].
    rewrite (chain_result_no_error env _ it
               (decode_error_no_config env _ it Hcfg)), Hx in Hch.
    destruct Hch as (Heq & _ & _ & _ & Hcache).
    destruct (Hn Hcfg) as [Hlog Hflag].
    rewrite Heq. simpl.
    destruct (IH s') as (IH1 & IH2 & IH3).
    rewrite Hcache, fmap_cons in IH1, IH2. cbn [fst] in IH1, IH2.
    rewrite IH1, IH2, IH3, Hlog, Hflag, missing_config_no_config_log, length_app.
    split_and!; try lia; try done.
Qed.

(** C4, as the code has it: without [config.FONT_NAME], every [Font.get]
    call whose triple was not requested before logs the missing-settings
    error once (followed on Windows by the default-font warning), and a
    call whose triple was requested before logs nothing; so over any
    sequence of calls the number of missing-settings records equals the
    number of distinct triples. The process-wide flag is neither read nor
    set on this path. *)
Theorem missing_config_logged_per_font env ks :
  config_FONT_NAME env = None ->
  missing_config_records (log (run_gets env ks initial_state)) =
    distinct_keys ks /\
  length (log (run_gets env ks initial_state)) =
    length (no_config_log env) * distinct_keys ks /\
  used_font_logged (run_gets env ks initial_state) = false.
Proof.
  intros Hcfg.
  destruct (run_gets_no_config env ks initial_state Hcfg) as (H1 & H2 & H3).
  by split_and!.
Qed.

Lemma missing_config_logged_per_font_witness :
  let env := win_env None in
  let ks := [("Arial", 14%Q, false); ("Arial", 14%Q, true);
             ("Arial", (28 # 2)%Q, false)] in
  missing_config_records (log (run_gets env ks initial_state)) = 2 /\
  length (log (run_gets env ks initial_state)) = 4 /\
  used_font_logged (run_gets env ks initial_state) = false.
Proof.
  intros env ks. apply (missing_config_logged_per_font env ks). reflexivity.
Defined.

(** C4 as stated is refuted by two requests that differ in the italic
    flag: each logs the missing-settings error, so the log holds two
    diagnostics, not one. *)
Lemma missing_config_logged_twice :
  config_FONT_NAME (linux_env None) = None /\
  log (run_gets (linux_env None)
         [("Arial", 14%Q, false); ("Arial", 14%Q, true)] initial_state)
    = [Error_NoFontNameSetting; Error_NoFontNameSetting] /\
  missing_config_records
    (log (run_gets (linux_env None)
            [("Arial", 14%Q, false); ("Arial", 14%Q, true)] initial_state))
    <> 1.
Proof. split_and!; [reflexivity | vm_compute; reflexivity | vm_compute; lia]. Qed.

(** ** Only a "normal" entry (C5) *)







(** The registry of the sample Windows box does not know Garamond, but the
    name is pure ASCII. *)
Lemma garamond_is_loggable :
  loggable (win_env (Some {[ "normal" := "Garamond" ]})) "Garamond" = true.
Proof. reflexivity. Qed.


(** * Further properties of the module *)

(** ** The chain in terms of the platform's resolution *)

Lemma fallback_chain_closed env it :
  fallback_chain env it =
    match config_FONT_NAME env with
    | None => Ok (default_font env)
    | Some d =>
        if it then
          if truthy (italic_candidate env d)
          then Ok (or_else (italic_candidate env d) (default_font env))
          else match d !! "normal" with
               | Some v => Ok (or_else (resolve_entry env v) (default_font env))
               | None => Raise (KeyError "normal")
               end
        else Ok (or_else (d !! "normal" ≫= resolve_entry env) (default_font env))
    end.
Proof.
  unfold fallback_chain, chain_win, chain_other, italic_candidate,
    resolve_entry, default_font.
  destruct (platform_is_win env), (config_FONT_NAME env) as [d|], it;
    try reflexivity.
  - destruct (d !! "italic") as [vi|]; simpl; reflexivity.
  - destruct (d !! "normal") as [vn|]; simpl; reflexivity.
Qed.

Lemma truthy_default_font env : truthy (Some (default_font env)) = true.
Proof.
  unfold default_font. destruct (platform_is_win env); [|done].
  apply truthy_default_win.
Qed.

Lemma or_else_Some (p d : string) :
  p <> EmptyString -> or_else (Some p) d = p.
Proof. destruct p; [done|reflexivity]. Qed.

Lemma or_else_falsy v d : truthy v = false -> or_else v d = d.
Proof. destruct v as [[|a p]|]; simpl; done. Qed.

(** ** Font.get on a miss, in full *)

Lemma Font_get_miss env n sz it s :
  assoc FontKey_eqb (n, sz, it) (Font_get_cache s) = None ->
  let f0 := {| name := n; size := sz; isItalic := it; font_name := None;
               slant := if it then FONT_SLANT_ITALIC else FONT_SLANT_NORMAL;
               metrics := None |} in
  let c0 := context_or_fresh env s in
  exists s',
    glyphs s' = glyphs s /\
    getGlyph_cache s' = getGlyph_cache s /\
    match chain_result env (used_font_logged s) it with
    | Ok x =>
        Font_get env (n, sz, it) s = (Ok (length (fonts s)), s') /\
        truthy (Some x) = true /\
        fonts s' =
          fonts s ++
            [assign_metrics (cairo_font_extents env (selected x f0))
               (assign_font_name (Some x) f0)] /\
        Font_cairoContext s' = Some c0 /\
        Font_get_cache s' = ((n, sz, it), length (fonts s)) :: Font_get_cache s
    | Raise e =>
        Font_get env (n, sz, it) s = (Raise e, s') /\
        fonts s' = fonts s ++ [f0] /\
        Font_cairoContext s' =
          Some {| current := current c0; saved := current c0 :: saved c0 |} /\
        Font_get_cache s' = Font_get_cache s
    end.
Proof.
  intros Hmiss f0 c0.
  destruct (Font_init_spec env n sz it s)
    as (s1 & Hg & Hk & Hq & Hl & Hn & Hch).
  fold f0 c0 in Hch.
  destruct (chain_result env (used_font_logged s) it) as [x|e].
  - destruct Hch as (Hrun & Htx & Hfs & Hctx).
    exists (with_Font_get_cache
              (((n, sz, it), length (fonts s)) :: Font_get_cache s1) s1).
    simpl. split_and!; try done; try (by rewrite Hk).
    unfold Font_get. by erewrite memoized_miss_ok.
  - destruct Hch as (Hrun & Hfs & Hctx).
    exists s1. split_and!; try done.
    unfold Font_get. by erewrite memoized_miss_raise.
Qed.

(** ** Induction over the reachable states *)

Lemma reachable_ind_wf env (P : State -> Prop) :
  P initial_state ->
  (forall s k, reachable env s -> wf s -> P s -> P (Font_get env k s).2) ->
  (forall s self c, reachable env s -> wf s ->
     self ∈ (Font_get_cache s).*2 -> P s -> P (getGlyph env (self, c) s).2) ->
  forall s, reachable env s -> P s.
Proof.
  intros Hinit Hget Hglyph s Hreach. unfold reachable in Hreach.
  revert s Hreach. apply (rtc_ind_r P); [done|].
  intros s1 s2 Hpre Hstep IH.
  pose proof (reachable_wf env s1 Hpre) as Hwf.
  destruct Hstep as [k s1|self ch s1 Hself]; eauto.
Qed.

(** Every entry of the font table points at the font that its triple
    builds. *)
Lemma reachable_font_of_key env s k r :
  reachable env s -> (k, r) ∈ Font_get_cache s ->
  exists f, fonts s !! r = Some f /\ font_of_key env k f.
Proof.
  intros Hreach. revert k r. revert s Hreach.
  apply (reachable_ind_wf env (fun s => forall k r, (k, r) ∈ Font_get_cache s ->
           exists f, fonts s !! r = Some f /\ font_of_key env k f)).
  - intros k r Hin. by apply elem_of_nil in Hin.
  - intros s [[n sz] it] Hreach Hwf IH k r.
    destruct (assoc FontKey_eqb (n, sz, it) (Font_get_cache s)) as [r0|] eqn:Hhit.
    { rewrite (memoized_hit _ _ _ _ _ _ _ Hhit : Font_get env _ s = _). apply IH. }
    destruct (Font_get_miss env n sz it s Hhit) as (s' & _ & _ & Hch).
    destruct (chain_result env (used_font_logged s) it) as [x|e] eqn:Hcr.
    + apply chain_result_Ok in Hcr as Hfc.
      destruct Hch as (-> & Htx & Hfs & _ & Hcache). simpl.
      rewrite Hcache, elem_of_cons. intros [[= -> ->]|Hin].
      * eexists. split.
        { rewrite Hfs, lookup_app_r by lia. by rewrite Nat.sub_diag. }
        unfold font_of_key. simpl. split_and!; try done.
        exists x. by split_and!.
      * destruct (IH k r Hin) as (f & Hf & Hk). exists f. split; [|done].
        rewrite Hfs. by apply lookup_app_l_Some.
    + destruct Hch as (-> & Hfs & _ & Hcache). simpl. rewrite Hcache.
      intros Hin. destruct (IH k r Hin) as (f & Hf & Hk). exists f.
      split; [|done]. rewrite Hfs. by apply lookup_app_l_Some.
  - intros s self c Hreach Hwf Hself IH k r.
    destruct (getGlyph_step env self c s Hwf Hself)
      as (_ & _ & _ & _ & Hfs & Hcache).
    rewrite Hcache, Hfs. apply IH.
Qed.

(** Every entry of the glyph table points at the glyph that its font and
    character build. *)
Lemma reachable_glyph_of_key env s k g :
  reachable env s -> (k, g) ∈ getGlyph_cache s ->
  exists x, glyphs s !! g = Some x /\ glyph_of_key env s k x.
Proof.
  intros Hreach. revert k g. revert s Hreach.
  apply (reachable_ind_wf env (fun s => forall k g, (k, g) ∈ getGlyph_cache s ->
           exists x, glyphs s !! g = Some x /\ glyph_of_key env s k x)).
  - intros k g Hin. by apply elem_of_nil in Hin.
  - intros s [[n sz] it] Hreach Hwf IH k g.
    destruct (Font_get_step env (n, sz, it) s Hwf) as [_ Hext].
    destruct (assoc FontKey_eqb (n, sz, it) (Font_get_cache s)) as [r0|] eqn:Hhit.
    { rewrite (memoized_hit _ _ _ _ _ _ _ Hhit : Font_get env _ s = _). apply IH. }
    destruct (Font_get_miss env n sz it s Hhit) as (s' & Hg & Hq & Hch).
    assert (Hrun : (Font_get env (n, sz, it) s).2 = s').
    { destruct (chain_result env (used_font_logged s) it); by destruct Hch as (-> & _). }
    rewrite Hrun in Hext |- *. rewrite Hq, Hg. intros Hin.
    destruct (IH k g Hin) as (x & Hx & f & fid & Hf & Hfid & Heq).
    exists x. split; [done|]. exists f, fid. split_and!; try done.
    by apply (ext_fonts s s' Hext).
  - intros s self c Hreach Hwf Hself IH k g.
    destruct (wf_cached_resolved s Hwf self Hself) as (f & Hf & Ht).
    destruct (wf_cached_context s self Hwf Hself) as [ctx Hctx].
    destruct (font_name f) as [fid|] eqn:Hfid; [|done].
    destruct (getGlyph_cases env self c s f fid ctx Hf Hfid Ht Hctx)
      as [(g0 & Hhit & ->)|(Hmiss & ->)]; simpl; [apply IH|].
    rewrite elem_of_cons. intros [[= -> ->]|Hin].
    + eexists. split.
      { rewrite lookup_app_r by lia. by rewrite Nat.sub_diag. }
      exists f, fid. by split_and!.
    + destruct (IH k g Hin) as (x & Hx & Hk). exists x.
      split; [by apply lookup_app_l_Some|done].
Qed.

(** ** What a returned font looks like *)

Lemma FontKey_eqb_true n sz it n' sz' it' :
  FontKey_eqb (n, sz, it) (n', sz', it') = true ->
  n = n' /\ (sz == sz')%Q /\ it = it'.
Proof.
  unfold FontKey_eqb. rewrite !andb_true_iff, Qeq_bool_iff, String.eqb_eq.
  intros [[-> Hsz] Hit]. apply Bool.eqb_prop in Hit. done.
Qed.

Lemma Font_get_reachable env k s : reachable env s -> reachable env (Font_get env k s).2.
Proof. intros H. eapply rtc_r; [exact H | apply step_Font_get]. Qed.

(** A returned font is the one that some equal triple built. *)
Lemma Font_get_returns env s k r s' :
  reachable env s ->
  Font_get env k s = (Ok r, s') ->
  exists k' f,
    FontKey_eqb k k' = true /\ fonts s' !! r = Some f /\ font_of_key env k' f.
Proof.
  intros Hreach Hget.
  pose proof (Font_get_reachable env k s Hreach) as Hreach'.
  rewrite Hget in Hreach'. simpl in Hreach'.
  destruct (assoc_Some_elem FontKey_eqb k r _ (Font_get_Ok_cached env k s r s' Hget))
    as (k' & Hin & Hk).
  destruct (reachable_font_of_key env s' k' r Hreach' Hin) as (f & Hf & Hfk).
  by exists k', f.
Qed.

Lemma first_lookup_entry d it v :
  first_lookup d it = Some v -> exists k, d !! k = Some v.
Proof.
  unfold first_lookup. destruct it; [|by eauto].
  destruct (d !! "italic") as [vi|] eqn:Hi; [intros [= <-]|]; eauto.
Qed.

Lemma decode_error_first_loggable env d logged it :
  config_FONT_NAME env = Some d ->
  (forall v, first_lookup d it = Some v -> loggable env v = true) ->
  decode_error env logged it = false.
Proof.
  intros Hcfg Hv. unfold decode_error, decode_error_win. rewrite Hcfg.
  destruct (first_lookup d it) as [v|]; [|by rewrite !andb_false_r].
  specialize (Hv v eq_refl). unfold loggable in Hv.
  destruct (platform_is_win env), logged, (get_font_detail env v);
    simpl in *; try done; by rewrite Hv.
Qed.

Lemma resolve_entry_loggable env v p :
  resolve_entry env v = Some p -> loggable env v = true.
Proof.
  unfold resolve_entry, registry_path, loggable.
  destruct (platform_is_win env); [|done].
  by destruct (get_font_detail env v).
Qed.

(** Where the closed form gives an identifier and no message can fail to
    be built, the call returns a font that carries it. *)
Lemma Font_get_chain env s n sz it x :
  reachable env s ->
  fallback_chain env it = Ok x ->
  (forall logged, decode_error env logged it = false) ->
  exists r f,
    (Font_get env (n, sz, it) s).1 = Ok r /\
    fonts (Font_get env (n, sz, it) s).2 !! r = Some f /\
    font_name f = Some x /\
    truthy (Some x) = true.
Proof.
  intros Hreach Hx Hde.
  destruct (assoc FontKey_eqb (n, sz, it) (Font_get_cache s)) as [r0|] eqn:Hhit.
  - pose proof (memoized_hit _ _ _ _ _ _ _ Hhit : Font_get env _ s = _) as Hget.
    destruct (Font_get_returns env s _ r0 s Hreach Hget)
      as ([[n' sz'] it'] & f & Hk & Hf & _ & _ & _ & _ & x' & Hc & Hn & Ht & _).
    apply FontKey_eqb_true in Hk as (_ & _ & <-). simpl in Hc.
    rewrite Hx in Hc. injection Hc as <-.
    rewrite Hget. simpl. by exists r0, f.
  - destruct (Font_get_miss env n sz it s Hhit) as (s' & _ & _ & Hch).
    rewrite (chain_result_no_error env _ it (Hde _)), Hx in Hch.
    destruct Hch as (-> & Ht & Hfs & _). simpl.
    eexists _, _. split; [done|]. split.
    { rewrite Hfs, lookup_app_r by lia. by rewrite Nat.sub_diag. }
    by split.
Qed.

(** X1. The font that [Font.get] returns has the requested name, a size equal
    to the requested one, the requested italic flag with the matching
    slant, a non-empty identifier, and the metrics that the backend
    reports with that identifier, slant and size selected. *)
Theorem Font_get_attributes env s n sz it r s' :
  reachable env s ->
  Font_get env (n, sz, it) s = (Ok r, s') ->
  exists f fid,
    fonts s' !! r = Some f /\
    name f = n /\ (size f == sz)%Q /\ isItalic f = it /\
    slant f = (if it then FONT_SLANT_ITALIC else FONT_SLANT_NORMAL) /\
    font_name f = Some fid /\ fid <> EmptyString /\
    metrics f = Some (cairo_font_extents env (selected fid f)).
Proof.
  intros Hreach Hget.
  destruct (Font_get_returns env s _ r s' Hreach Hget)
    as ([[n' sz'] it'] & f & Hk & Hf & Hn & Hsz & Hit & Hsl & x & _ & Hx & Ht & Hm).
  apply FontKey_eqb_true in Hk as (-> & Hq & ->). simpl in *.
  exists f, x. split_and!; try done.
  - rewrite Hsz. by symmetry.
  - intros ->. discriminate.
Qed.

Lemma Font_get_attributes_witness :
  let env := linux_env (Some {[ "normal" := "Consolas" ]}) in
  let res := Font_get env ("Arial", 14%Q, true) initial_state in
  exists f fid,
    fonts res.2 !! 0 = Some f /\
    name f = "Arial" /\ (size f == 14)%Q /\ isItalic f = true /\
    slant f = FONT_SLANT_ITALIC /\
    font_name f = Some fid /\ fid <> EmptyString /\
    metrics f = Some (cairo_font_extents env (selected fid f)).
Proof.
  intros env res.
  apply (Font_get_attributes env initial_state "Arial" 14%Q true 0 res.2).
  - apply rtc_refl.
  - vm_compute. reflexivity.
Defined.

(** ** Which identifier a request resolves to *)

(** X2. An italic request takes the "italic" entry whenever the platform
    resolves it to a non-empty identifier (the entry itself off Windows,
    the registry's file path on Windows), whatever the "normal" entry is. *)
Theorem italic_entry_used env d vi p s n sz :
  config_FONT_NAME env = Some d ->
  d !! "italic" = Some vi ->
  resolve_entry env vi = Some p ->
  p <> EmptyString ->
  reachable env s ->
  exists r f,
    (Font_get env (n, sz, true) s).1 = Ok r /\
    fonts (Font_get env (n, sz, true) s).2 !! r = Some f /\
    font_name f = Some p.
Proof.
  intros Hcfg Hi Hp Hne Hreach.
  destruct (Font_get_chain env s n sz true p Hreach) as (r & f & H1 & H2 & H3 & _).
  - rewrite fallback_chain_closed, Hcfg. unfold italic_candidate.
    rewrite Hi. simpl. rewrite Hp. destruct p; [done|reflexivity].
  - intros logged. apply (decode_error_first_loggable env d); [done|].
    unfold first_lookup. rewrite Hi. intros v [= <-].
    by eapply resolve_entry_loggable.
  - by exists r, f.
Qed.

Lemma italic_entry_used_witness :
  let env := win_env (Some {[ "italic" := "Consolas" ]}) in
  exists r f,
    (Font_get env ("Arial", 14%Q, true) initial_state).1 = Ok r /\
    fonts (Font_get env ("Arial", 14%Q, true) initial_state).2 !! r = Some f /\
    font_name f = Some "C:\Windows\Fonts\consola.ttf".
Proof.
  intros env.
  apply (italic_entry_used env {[ "italic" := "Consolas" ]} "Consolas"
           "C:\Windows\Fonts\consola.ttf" initial_state "Arial" 14%Q).
  - reflexivity.
  - vm_compute. reflexivity.
  - vm_compute. reflexivity.
  - discriminate.
  - apply rtc_refl.
Defined.

(** X3. A non-italic request takes the "normal" entry whenever the platform
    resolves it to a non-empty identifier; the "italic" entry plays no
    part. *)
Theorem normal_entry_used env d vn p s n sz :
  config_FONT_NAME env = Some d ->
  d !! "normal" = Some vn ->
  resolve_entry env vn = Some p ->
  p <> EmptyString ->
  reachable env s ->
  exists r f,
    (Font_get env (n, sz, false) s).1 = Ok r /\
    fonts (Font_get env (n, sz, false) s).2 !! r = Some f /\
    font_name f = Some p.
Proof.
  intros Hcfg Hn Hp Hne Hreach.
  destruct (Font_get_chain env s n sz false p Hreach) as (r & f & H1 & H2 & H3 & _).
  - rewrite fallback_chain_closed, Hcfg, Hn. simpl. rewrite Hp.
    by rewrite or_else_Some.
  - intros logged. apply (decode_error_first_loggable env d); [done|].
    unfold first_lookup. rewrite Hn. intros v [= <-].
    by eapply resolve_entry_loggable.
  - by exists r, f.
Qed.

Lemma normal_entry_used_witness :
  let env := linux_env (Some {[ "normal" := "DejaVu Sans" ]}) in
  exists r f,
    (Font_get env ("Arial", 14%Q, false) initial_state).1 = Ok r /\
    fonts (Font_get env ("Arial", 14%Q, false) initial_state).2 !! r = Some f /\
    font_name f = Some "DejaVu Sans".
Proof.
  intros env.
  apply (normal_entry_used env {[ "normal" := "DejaVu Sans" ]} "DejaVu Sans"
           "DejaVu Sans" initial_state "Arial" 14%Q).
  - reflexivity.
  - vm_compute. reflexivity.
  - reflexivity.
  - discriminate.
  - apply rtc_refl.
Defined.

(** X4. An italic request falls back to the "normal" entry when the "italic"
    entry is absent, empty, or (on Windows) unknown to the registry under
    a pure-ASCII name, and the "normal" entry resolves to a non-empty
    identifier. *)
Theorem italic_falls_back_to_normal env d vn p s n sz :
  config_FONT_NAME env = Some d ->
  truthy (italic_candidate env d) = false ->
  (forall vi, d !! "italic" = Some vi -> loggable env vi = true) ->
  d !! "normal" = Some vn ->
  resolve_entry env vn = Some p ->
  p <> EmptyString ->
  reachable env s ->
  exists r f,
    (Font_get env (n, sz, true) s).1 = Ok r /\
    fonts (Font_get env (n, sz, true) s).2 !! r = Some f /\
    font_name f = Some p.
Proof.
  intros Hcfg Hi Hli Hn Hp Hne Hreach.
  destruct (Font_get_chain env s n sz true p Hreach) as (r & f & H1 & H2 & H3 & _).
  - rewrite fallback_chain_closed, Hcfg, Hi, Hn, Hp. by rewrite or_else_Some.
  - intros logged. apply (decode_error_first_loggable env d); [done|].
    unfold first_lookup. destruct (d !! "italic") as [vi|] eqn:Hvi.
    + intros v [= <-]. by apply Hli.
    + rewrite Hn. intros v [= <-]. by eapply resolve_entry_loggable.
  - by exists r, f.
Qed.

Lemma italic_falls_back_to_normal_witness :
  let env := win_env (Some {[ "italic" := "Garamond Italic";
                              "normal" := "Consolas" ]}) in
  exists r f,
    (Font_get env ("Arial", 14%Q, true) initial_state).1 = Ok r /\
    fonts (Font_get env ("Arial", 14%Q, true) initial_state).2 !! r = Some f /\
    font_name f = Some "C:\Windows\Fonts\consola.ttf".
Proof.
  intros env.
  apply (italic_falls_back_to_normal env
           {[ "italic" := "Garamond Italic"; "normal" := "Consolas" ]}
           "Consolas" "C:\Windows\Fonts\consola.ttf" initial_state
           "Arial" 14%Q).
  - reflexivity.
  - vm_compute. reflexivity.
  - intros vi Hvi. vm_compute in Hvi. injection Hvi as <-.
    vm_compute. reflexivity.
  - vm_compute. reflexivity.
  - vm_compute. reflexivity.
  - discriminate.
  - apply rtc_refl.
Defined.

(** X5. Without [config.FONT_NAME] every request, italic or not, returns a
    font with the platform default: "Helvetica", or [arial.ttf] in the
    fonts folder on Windows. *)
Theorem no_config_default env s n sz it :
  config_FONT_NAME env = None ->
  reachable env s ->
  exists r f,
    (Font_get env (n, sz, it) s).1 = Ok r /\
    fonts (Font_get env (n, sz, it) s).2 !! r = Some f /\
    font_name f = Some (default_font env).
Proof.
  intros Hcfg Hreach.
  destruct (Font_get_chain env s n sz it (default_font env) Hreach)
    as (r & f & H1 & H2 & H3 & _).
  - by rewrite fallback_chain_closed, Hcfg.
  - intros logged. by apply decode_error_no_config.
  - by exists r, f.
Qed.

Lemma no_config_default_witness :
  let env := win_env None in
  exists r f,
    (Font_get env ("Arial", 14%Q, true) initial_state).1 = Ok r /\
    fonts (Font_get env ("Arial", 14%Q, true) initial_state).2 !! r = Some f /\
    font_name f = Some (default_font env).
Proof.
  intros env. apply (no_config_default env initial_state "Arial" 14%Q true).
  - reflexivity.
  - apply rtc_refl.
Defined.

(** X6. With settings present, a request whose entries all resolve to nothing
    usable ends at the platform default, provided the entry it looks up
    first is one whose lookup can be reported (off Windows, known to the
    registry, or pure ASCII): a non-italic request when the "normal" entry
    is absent, empty or unknown; an italic request when the "normal" entry
    is present but empty or unknown and the "italic" entry gives nothing
    either. *)
Theorem unresolved_entries_default env d s n sz it :
  config_FONT_NAME env = Some d ->
  truthy (d !! "normal" ≫= resolve_entry env) = false ->
  (it = true ->
     is_Some (d !! "normal") /\ truthy (italic_candidate env d) = false) ->
  (forall v, first_lookup d it = Some v -> loggable env v = true) ->
  reachable env s ->
  exists r f,
    (Font_get env (n, sz, it) s).1 = Ok r /\
    fonts (Font_get env (n, sz, it) s).2 !! r = Some f /\
    font_name f = Some (default_font env).
Proof.
  intros Hcfg Hn Hit Hl Hreach.
  destruct (Font_get_chain env s n sz it (default_font env) Hreach)
    as (r & f & H1 & H2 & H3 & _).
  - rewrite fallback_chain_closed, Hcfg. destruct it.
    + destruct (Hit eq_refl) as [[vn Hvn] Hi]. rewrite Hi, Hvn.
      rewrite Hvn in Hn. simpl in Hn. by rewrite or_else_falsy.
    + by rewrite or_else_falsy.
  - intros logged. by apply (decode_error_first_loggable env d).
  - by exists r, f.
Qed.

Lemma unresolved_entries_default_witness :
  let env := win_env (Some {[ "normal" := "Garamond" ]}) in
  exists r f,
    (Font_get env ("Arial", 14%Q, true) initial_state).1 = Ok r /\
    fonts (Font_get env ("Arial", 14%Q, true) initial_state).2 !! r = Some f /\
    font_name f = Some (default_font env).
Proof.
  intros env.
  apply (unresolved_entries_default env {[ "normal" := "Garamond" ]}
           initial_state "Arial" 14%Q true).
  - reflexivity.
  - vm_compute. reflexivity.
  - intros _. split; [by eexists; vm_compute | vm_compute; reflexivity].
  - intros v Hv. vm_compute in Hv. injection Hv as <-. vm_compute. reflexivity.
  - apply rtc_refl.
Defined.

(** ** When Font.get raises, and what it leaves behind *)

Lemma fallback_chain_Raise env it e :
  fallback_chain env it = Raise e <->
  e = KeyError "normal" /\ it = true /\
  exists d, config_FONT_NAME env = Some d /\ d !! "normal" = None /\
            truthy (italic_candidate env d) = false.
Proof.
  rewrite fallback_chain_closed.
  destruct (config_FONT_NAME env) as [d|].
  - destruct it.
    + destruct (truthy (italic_candidate env d)) eqn:Hi.
      * split; [done|]. intros (_ & _ & d' & [= <-] & _ & Hi'). congruence.
      * destruct (d !! "normal") as [vn|] eqn:Hn.
        -- split; [done|]. intros (_ & _ & d' & [= <-] & Hn' & _). congruence.
        -- split; [intros [= <-]; eauto 10|by intros (-> & _)].
    + split; [done|]. by intros (_ & ? & _).
  - split; [done|]. by intros (_ & _ & d & ? & _).
Qed.

Lemma chain_result_Raise env logged it e :
  chain_result env logged it = Raise e <->
  (e = UnicodeDecodeError /\ decode_error env logged it = true) \/
  (decode_error env logged it = false /\ fallback_chain env it = Raise e).
Proof.
  unfold chain_result. destruct (decode_error env logged it).
  - split; [intros [= <-]; by left|]. intros [[-> _]|[? _]]; done.
  - split; [by right|]. by intros [[_ ?]|[_ ?]].
Qed.

(** X7. [Font.get] raises exactly when the triple is not in the table and
    either the Windows block cannot build its not-found message (no
    registry message was logged yet and the first entry it looks up is
    unknown to the registry and has a byte above 127), which gives
    [UnicodeDecodeError], or else the request is italic, the settings
    exist but have no "normal" entry, and the "italic" entry gives nothing
    usable, which gives [KeyError("normal")]. *)
Theorem Font_get_raises_iff env s n sz it e :
  (exists s', Font_get env (n, sz, it) s = (Raise e, s')) <->
  assoc FontKey_eqb (n, sz, it) (Font_get_cache s) = None /\
  ((e = UnicodeDecodeError /\
    decode_error env (used_font_logged s) it = true) \/
   (e = KeyError "normal" /\
    decode_error env (used_font_logged s) it = false /\ it = true /\
    exists d, config_FONT_NAME env = Some d /\ d !! "normal" = None /\
              truthy (italic_candidate env d) = false)).
Proof.
  destruct (assoc FontKey_eqb (n, sz, it) (Font_get_cache s)) as [r0|] eqn:Hhit.
  - rewrite (memoized_hit _ _ _ _ _ _ _ Hhit : Font_get env _ s = _).
    split; [by intros [s' ?]|by intros [? _]].
  - destruct (Font_get_miss env n sz it s Hhit) as (s' & _ & _ & Hch).
    assert (Hiff : chain_result env (used_font_logged s) it = Raise e <->
              (e = UnicodeDecodeError /\
               decode_error env (used_font_logged s) it = true) \/
              (e = KeyError "normal" /\
               decode_error env (used_font_logged s) it = false /\ it = true /\
               exists d, config_FONT_NAME env = Some d /\ d !! "normal" = None /\
                         truthy (italic_candidate env d) = false)).
    { rewrite chain_result_Raise, fallback_chain_Raise. tauto. }
    rewrite <- Hiff.
    destruct (chain_result env (used_font_logged s) it) as [x|e'].
    + destruct Hch as (-> & _). split; [by intros [s0 ?]|by intros [_ ?]].
    + destruct Hch as (-> & _). split.
      * by intros [s0 [= ->]].
      * intros [_ [= ->]]. by exists s'.
Qed.

(** X8. When [Font.__init__] raises, it does so inside [loadInto], after
    [save()] and before [restore()]: the shared context keeps its current
    font state but is left with one more saved state, and the exception is
    [KeyError("normal")] or [UnicodeDecodeError]. *)
Theorem Font_init_failure_leaves_save env n sz it s e s' :
  Font_init env n sz it s = (Raise e, s') ->
  Font_cairoContext s' =
    Some {| current := current (context_or_fresh env s);
            saved := current (context_or_fresh env s)
                       :: saved (context_or_fresh env s) |} /\
  (e = KeyError "normal" \/ e = UnicodeDecodeError).
Proof.
  intros Hinit.
  destruct (Font_init_spec env n sz it s) as (s0 & _ & _ & _ & _ & _ & Hch).
  destruct (chain_result env (used_font_logged s) it) as [x|e0] eqn:Hcr.
  { destruct Hch as (Heq & _). rewrite Heq in Hinit. discriminate. }
  destruct Hch as (Heq & _ & Hctx).
  rewrite Heq in Hinit. injection Hinit as -> ->. split; [done|].
  apply chain_result_Raise in Hcr as [[-> _]|[_ Hfc]]; [by right|].
  apply fallback_chain_Raise in Hfc as (-> & _). by left.
Qed.

Lemma Font_init_failure_leaves_save_witness :
  let env := linux_env (Some ∅) in
  let s' := (Font_init env "Arial" 12%Q true initial_state).2 in
  Font_cairoContext s' =
    Some {| current := current (context_or_fresh env initial_state);
            saved := current (context_or_fresh env initial_state)
                       :: saved (context_or_fresh env initial_state) |} /\
  (KeyError "normal" = KeyError "normal" \/
   KeyError "normal" = UnicodeDecodeError).
Proof.
  intros env s'.
  apply (Font_init_failure_leaves_save env "Arial" 12%Q true initial_state
           (KeyError "normal") s').
  vm_compute. reflexivity.
Defined.

Lemma decode_error_all_loggable env logged it :
  (forall d k v, config_FONT_NAME env = Some d -> d !! k = Some v ->
                 loggable env v = true) ->
  decode_error env logged it = false.
Proof.
  intros Hl. destruct (config_FONT_NAME env) as [d|] eqn:Hcfg.
  - apply (decode_error_first_loggable env d); [done|].
    intros v Hv. destruct (first_lookup_entry d it v Hv) as [k Hk]. eauto.
  - by apply decode_error_no_config.
Qed.

(** X9. When the settings are absent, or have a "normal" entry and every
    entry is one whose lookup can be reported (off Windows, known to the
    registry, or pure ASCII), [Font.get] never raises: every call returns
    a font with a non-empty identifier. *)
Theorem Font_get_total_with_normal env s k :
  (forall d, config_FONT_NAME env = Some d -> is_Some (d !! "normal")) ->
  (forall d key v, config_FONT_NAME env = Some d -> d !! key = Some v ->
                   loggable env v = true) ->
  reachable env s ->
  exists r s' f fid,
    Font_get env k s = (Ok r, s') /\
    fonts s' !! r = Some f /\
    font_name f = Some fid /\ fid <> EmptyString.
Proof.
  intros Hnormal Hl Hreach. destruct k as [[n sz] it].
  destruct (fallback_chain_total env it Hnormal) as [x Hx].
  destruct (Font_get_chain env s n sz it x Hreach Hx
              (fun b => decode_error_all_loggable env b it Hl))
    as (r & f & H1 & H2 & H3 & Ht).
  destruct (Font_get env (n, sz, it) s) as [res s'] eqn:Hget. simpl in *.
  subst res. exists r, s', f, x. split_and!; try done.
  intros ->. discriminate.
Qed.

Lemma Font_get_total_with_normal_witness :
  let env := win_env (Some {[ "normal" := "Garamond" ]}) in
  exists r s' f fid,
    Font_get env ("Arial", 14%Q, true) initial_state = (Ok r, s') /\
    fonts s' !! r = Some f /\
    font_name f = Some fid /\ fid <> EmptyString.
Proof.
  intros env.
  apply (Font_get_total_with_normal env initial_state ("Arial", 14%Q, true)).
  - intros d [= <-]. by eexists; vm_compute.
  - intros d key v [= <-] Hk.
    apply lookup_singleton_Some in Hk as [_ <-]. vm_compute. reflexivity.
  - apply rtc_refl.
Defined.

(** ** The shared context between calls *)



(** ** The size of the pool *)

Lemma run_gets_total env ks s :
  (forall d, config_FONT_NAME env = Some d -> is_Some (d !! "normal")) ->
  (forall d key v, config_FONT_NAME env = Some d -> d !! key = Some v ->
                   loggable env v = true) ->
  length (fonts (run_gets env ks s)) =
    length (fonts s) + fresh_keys (Font_get_cache s).*1 ks /\
  length (Font_get_cache (run_gets env ks s)) =
    length (Font_get_cache s) + fresh_keys (Font_get_cache s).*1 ks.
Proof.
  intros Hnormal Hl. revert s.
  induction ks as [|[[n sz] it] ks IH]; intros s; simpl; [lia|].
  destruct (assoc FontKey_eqb (n, sz, it) (Font_get_cache s)) as [r0|] eqn:Hhit.
  - rewrite (memoized_hit _ _ _ _ _ _ _ Hhit : Font_get env _ s = _). simpl.
    destruct (existsb (FontKey_eqb (n, sz, it)) (Font_get_cache s).*1) eqn:Hex.
    + apply IH.
    + apply assoc_None_existsb in Hex. congruence.
  - destruct (Font_get_miss env n sz it s Hhit) as (s' & _ & _ & Hch).
    apply assoc_None_existsb in Hhit. rewrite Hhit.
    destruct (fallback_chain_total env it Hnormal) as [x Hx].
    unfold chain_result in Hch.
    rewrite (decode_error_all_loggable env _ it Hl), Hx in Hch.
    destruct Hch as (-> & _ & Hfs & _ & Hcache). simpl.
    destruct (IH s') as [IH1 IH2].
    rewrite Hcache, fmap_cons in IH1, IH2. cbn [fst length] in IH1, IH2.
    rewrite IH1, IH2, Hfs, length_app. simpl. lia.
Qed.

(** X11. When the settings are absent, or have a "normal" entry and every
    entry is one whose lookup can be reported (off Windows, known to the
    registry, or pure ASCII), a sequence of [Font.get] calls leaves exactly
    one [Font] object per distinct triple requested, each of them in the
    table. *)
Theorem pool_size env ks :
  (forall d, config_FONT_NAME env = Some d -> is_Some (d !! "normal")) ->
  (forall d key v, config_FONT_NAME env = Some d -> d !! key = Some v ->
                   loggable env v = true) ->
  length (fonts (run_gets env ks initial_state)) = distinct_keys ks /\
  length (Font_get_cache (run_gets env ks initial_state)) = distinct_keys ks.
Proof.
  intros Hnormal Hl.
  destruct (run_gets_total env ks initial_state Hnormal Hl).
  split; done.
Qed.

Lemma pool_size_witness :
  let env := win_env (Some {[ "normal" := "Garamond" ]}) in
  let ks := [("Arial", 14%Q, false); ("Arial", 14%Q, true);
             ("Arial", (28 # 2)%Q, false); ("Arial", 14%Q, true)] in
  length (fonts (run_gets env ks initial_state)) = distinct_keys ks /\
  length (Font_get_cache (run_gets env ks initial_state)) = distinct_keys ks.
Proof.
  intros env ks. apply (pool_size env ks).
  - intros d [= <-]. by eexists; vm_compute.
  - intros d key v [= <-] Hk.
    apply lookup_singleton_Some in Hk as [_ <-]. vm_compute. reflexivity.
Defined.

(** ** What getGlyph returns and what it leaves alone *)

Lemma getGlyph_reachable env self c s :
  reachable env s -> self ∈ (Font_get_cache s).*2 ->
  reachable env (getGlyph env (self, c) s).2.
Proof. intros H Hself. eapply rtc_r; [exact H | by apply step_getGlyph]. Qed.

(** X12. The glyph that [getGlyph] returns, new or cached, records the
    character, its UTF-8 encoding and the font, and carries the extents
    that the backend reports for that encoding with the font's own
    identifier, slant and size selected: what the shared context had
    selected before does not enter. *)
Theorem getGlyph_measures_with_own_font env s self c g s' :
  reachable env s ->
  self ∈ (Font_get_cache s).*2 ->
  getGlyph env (self, c) s = (Ok g, s') ->
  exists f fid x,
    fonts s' !! self = Some f /\
    font_name f = Some fid /\
    glyphs s' !! g = Some x /\
    char x = c /\ font x = self /\ charAsUtf8 x = encode_UTF8 c /\
    x = glyph_of_extents (encode_UTF8 c) c self
          (cairo_text_extents env (selected fid f) (encode_UTF8 c)).
Proof.
  intros Hreach Hself Hget.
  pose proof (reachable_wf env s Hreach) as Hwf.
  pose proof (getGlyph_reachable env self c s Hreach Hself) as Hreach'.
  rewrite Hget in Hreach'. simpl in Hreach'.
  assert (Hc : assoc GlyphKey_eqb (self, c) (getGlyph_cache s') = Some g).
  { destruct (wf_cached_resolved s Hwf self Hself) as (f & Hf & Ht).
    destruct (wf_cached_context s self Hwf Hself) as [ctx Hctx].
    destruct (font_name f) as [fid|] eqn:Hfid; [|done].
    destruct (getGlyph_cases env self c s f fid ctx Hf Hfid Ht Hctx)
      as [(g0 & Hhit & Heq)|(Hmiss & Heq)]; rewrite Heq in Hget.
    - by injection Hget as -> ->.
    - injection Hget as <- <-. cbn [getGlyph_cache with_getGlyph_cache assoc].
      by rewrite (proj2 (GlyphKey_eqb_eq _ _) eq_refl). }
  destruct (assoc_Some_elem GlyphKey_eqb _ _ _ Hc) as (k' & Hin & Hk).
  apply GlyphKey_eqb_eq in Hk. subst k'.
  destruct (reachable_glyph_of_key env s' _ g Hreach' Hin)
    as (x & Hx & f & fid & Hf & Hfid & Heq).
  simpl in Hf, Heq. exists f, fid, x. split_and!; try done; by subst x.
Qed.

Lemma getGlyph_measures_with_own_font_witness :
  let env := linux_env None in
  let s := (Font_get env ("Arial", 14%Q, false) initial_state).2 in
  let s' := (getGlyph env (0, 65%N) s).2 in
  exists f fid x,
    fonts s' !! 0 = Some f /\
    font_name f = Some fid /\
    glyphs s' !! 0 = Some x /\
    char x = 65%N /\ font x = 0 /\ charAsUtf8 x = encode_UTF8 65 /\
    x = glyph_of_extents (encode_UTF8 65) 65%N 0
          (cairo_text_extents env (selected fid f) (encode_UTF8 65)).
Proof.
  intros env s s'.
  apply (getGlyph_measures_with_own_font env s 0 65%N 0 s').
  - eapply rtc_l; [apply step_Font_get | apply rtc_refl].
  - vm_compute. constructor.
  - vm_compute. reflexivity.
Defined.

(** X13. [getGlyph] on a font from [Font.get] logs nothing and writes neither
    the flag, nor any [Font] object, nor the font table, nor (once it has
    returned) the context; glyph objects already made stay as they are, and
    at most one is added. *)
Theorem getGlyph_frame env s self c :
  reachable env s ->
  self ∈ (Font_get_cache s).*2 ->
  log (getGlyph env (self, c) s).2 = log s /\
  used_font_logged (getGlyph env (self, c) s).2 = used_font_logged s /\
  fonts (getGlyph env (self, c) s).2 = fonts s /\
  Font_get_cache (getGlyph env (self, c) s).2 = Font_get_cache s /\
  Font_cairoContext (getGlyph env (self, c) s).2 = Font_cairoContext s /\
  (forall g x, glyphs s !! g = Some x ->
     glyphs (getGlyph env (self, c) s).2 !! g = Some x) /\
  length (glyphs (getGlyph env (self, c) s).2) <= S (length (glyphs s)).
Proof.
  intros Hreach Hself.
  pose proof (reachable_wf env s Hreach) as Hwf.
  destruct (wf_cached_resolved s Hwf self Hself) as (f & Hf & Ht).
  destruct (wf_cached_context s self Hwf Hself) as [ctx Hctx].
  destruct (font_name f) as [fid|] eqn:Hfid; [|done].
  destruct (getGlyph_cases env self c s f fid ctx Hf Hfid Ht Hctx)
    as [(g0 & Hhit & ->)|(Hmiss & ->)]; simpl.
  - split_and!; try done. lia.
  - split_and!; try done.
    + intros g x Hx. by apply lookup_app_l_Some.
    + rewrite length_app. simpl. lia.
Qed.

Lemma getGlyph_frame_witness :
  let env := win_env None in
  let s := (Font_get env ("Arial", 14%Q, false) initial_state).2 in
  log (getGlyph env (0, 65%N) s).2 = log s /\
  used_font_logged (getGlyph env (0, 65%N) s).2 = used_font_logged s /\
  fonts (getGlyph env (0, 65%N) s).2 = fonts s /\
  Font_get_cache (getGlyph env (0, 65%N) s).2 = Font_get_cache s /\
  Font_cairoContext (getGlyph env (0, 65%N) s).2 = Font_cairoContext s /\
  (forall g x, glyphs s !! g = Some x ->
     glyphs (getGlyph env (0, 65%N) s).2 !! g = Some x) /\
  length (glyphs (getGlyph env (0, 65%N) s).2) <= S (length (glyphs s)).
Proof.
  intros env s. apply (getGlyph_frame env s 0 65%N).
  - eapply rtc_l; [apply step_Font_get | apply rtc_refl].
  - vm_compute. constructor.
Defined.

(** ** Properties of the log that every call keeps *)

Lemma silent_bind {A B} (m : M A) (k : A -> M B) :
  silent m -> (forall a, silent (k a)) -> silent (bind m k).
Proof.
  intros Hm Hk s. unfold bind. specialize (Hm s).
  destruct (m s) as [[a|e] s1]; simpl in *; [|done].
  destruct (Hk a s1) as [H1 H2]. destruct Hm as [H3 H4]. split; congruence.
Qed.

Lemma silent_ret {A} (a : A) : silent (ret a).
Proof. by intros s. Qed.

Lemma silent_raise {A} e : silent (@raise A e).
Proof. by intros s. Qed.

Lemma silent_gets {A} (f : State -> A) : silent (gets f).
Proof. by intros s. Qed.

Lemma silent_the_context : silent the_context.
Proof. intros s. unfold the_context. by destruct (Font_cairoContext s). Qed.

Lemma silent_put_context c : silent (put_context c).
Proof. by intros s. Qed.

Lemma silent_read_font self : silent (read_font self).
Proof. intros s. unfold read_font. by destruct (fonts s !! self). Qed.

Lemma silent_getitem d k : silent (getitem d k).
Proof. intros s. unfold getitem. by destruct (d !! k). Qed.

Lemma silent_set_font_name self v : silent (set_font_name self v).
Proof. by intros s. Qed.

Lemma silent_set_metrics self fe : silent (set_metrics self fe).
Proof. by intros s. Qed.

Lemma silent_alloc_font f : silent (alloc_font f).
Proof. by intros s. Qed.

Lemma silent_alloc_glyph g : silent (alloc_glyph g).
Proof. by intros s. Qed.

Lemma silent_ensure_context env : silent (ensure_context env).
Proof. intros s. unfold ensure_context. by destruct (Font_cairoContext s). Qed.

Lemma silent_cairo_save : silent cairo_save.
Proof.
  apply silent_bind; [apply silent_the_context|]. intros c. apply silent_put_context.
Qed.

Lemma silent_cairo_restore : silent cairo_restore.
Proof.
  apply silent_bind; [apply silent_the_context|]. intros c.
  destruct (saved c); [apply silent_raise|apply silent_put_context].
Qed.

Lemma silent_select_font_face family sl w : silent (select_font_face family sl w).
Proof.
  apply silent_bind; [apply silent_the_context|]. intros c.
  destruct family; [apply silent_put_context|apply silent_raise].
Qed.

Lemma silent_set_font_size sz : silent (set_font_size sz).
Proof.
  apply silent_bind; [apply silent_the_context|]. intros c. apply silent_put_context.
Qed.

Lemma silent_font_extents env : silent (font_extents env).
Proof.
  apply silent_bind; [apply silent_the_context|]. intros c. apply silent_ret.
Qed.

Lemma silent_text_extents env u : silent (text_extents env u).
Proof.
  apply silent_bind; [apply silent_the_context|]. intros c. apply silent_ret.
Qed.

Section Preserves.

Context (P : State -> Prop) (HP : log_flag_only P).

Lemma preserves_bind {A B} (m : M A) (k : A -> M B) :
  preserves P m -> (forall a, preserves P (k a)) -> preserves P (bind m k).
Proof.
  intros Hm Hk s Hs. unfold bind. specialize (Hm s Hs).
  destruct (m s) as [[a|e] s1]; simpl in *; [|done]. by apply Hk.
Qed.

Lemma preserves_silent {A} (m : M A) : silent m -> preserves P m.
Proof. intros Hm s Hs. destruct (Hm s) as [H1 H2]. by apply (HP s). Qed.

Lemma preserves_when b (m : M unit) : preserves P m -> preserves P (when b m).
Proof.
  intros Hm. destruct b; simpl; [done|]. apply preserves_silent, silent_ret.
Qed.

Lemma preserves_loadInto env self :
  (forall it, preserves P (if platform_is_win env
                           then resolve_win env self it
                           else resolve_other env self it)) ->
  preserves P (loadInto env self).
Proof.
  intros Hres. unfold loadInto. apply preserves_bind.
  - destruct (platform_is_win env);
      (apply preserves_bind; [apply preserves_silent, silent_read_font|]);
      intros f; (apply preserves_bind; [apply preserves_when, Hres|]);
      intros _; (apply preserves_bind; [apply preserves_silent, silent_read_font|]);
      intros f'; apply preserves_silent, silent_select_font_face.
  - intros _. apply preserves_bind; [apply preserves_silent, silent_read_font|].
    intros f. apply preserves_silent, silent_set_font_size.
Qed.

Lemma preserves_memoized {K V} eqb cache with_cache (f : K -> M V) k :
  (forall c s, log (with_cache c s) = log s /\
               used_font_logged (with_cache c s) = used_font_logged s) ->
  preserves P (f k) ->
  preserves P (memoized eqb cache with_cache f k).
Proof.
  intros Hwc Hf. unfold memoized.
  apply preserves_bind; [apply preserves_silent, silent_gets|].
  intros [v|]; [apply preserves_silent, silent_ret|].
  apply preserves_bind; [done|]. intros v.
  apply preserves_bind; [|intros _; apply preserves_silent, silent_ret].
  apply preserves_silent. intros s. apply Hwc.
Qed.

Variable env : Env.

Hypothesis Hres : forall self it,
  preserves P (if platform_is_win env
               then resolve_win env self it
               else resolve_other env self it).

Lemma preserves_Font_get k : preserves P (Font_get env k).
Proof.
  unfold Font_get. apply preserves_memoized; [done|].
  destruct k as [[n sz] it]. unfold Font_init.
  apply preserves_bind; [apply preserves_silent, silent_alloc_font|]. intros self.
  apply preserves_bind; [apply preserves_silent, silent_ensure_context|]. intros _.
  apply preserves_bind; [apply preserves_silent, silent_cairo_save|]. intros _.
  apply preserves_bind; [by apply preserves_loadInto|]. intros _.
  apply preserves_bind; [apply preserves_silent, silent_font_extents|]. intros fe.
  apply preserves_bind; [apply preserves_silent, silent_set_metrics|]. intros _.
  apply preserves_bind; [apply preserves_silent, silent_cairo_restore|]. intros _.
  apply preserves_silent, silent_ret.
Qed.

Lemma preserves_getGlyph k : preserves P (getGlyph env k).
Proof.
  unfold getGlyph. apply preserves_memoized; [done|].
  destruct k as [self c]. unfold FontGlyph_init.
  apply preserves_bind; [apply preserves_silent, silent_cairo_save|]. intros _.
  apply preserves_bind; [by apply preserves_loadInto|]. intros _.
  apply preserves_bind; [apply preserves_silent, silent_text_extents|]. intros te.
  apply preserves_bind; [apply preserves_silent, silent_cairo_restore|]. intros _.
  apply preserves_silent, silent_alloc_glyph.
Qed.

(** A property of log and flag that the resolution block keeps and that
    holds at import time holds in every reachable state. *)
Lemma reachable_preserves s : P initial_state -> reachable env s -> P s.
Proof.
  intros Hinit Hreach. unfold reachable in Hreach.
  revert s Hreach. apply (rtc_ind_r P); [done|].
  intros s1 s2 _ Hstep IH. destruct Hstep as [k s1|self c s1 _].
  - by apply preserves_Font_get.
  - by apply preserves_getGlyph.
Qed.

End Preserves.

Ltac silent_leaf :=
  first [ apply silent_ret | apply silent_raise | apply silent_getitem
        | apply silent_set_font_name | apply silent_gets
        | apply silent_read_font ].

Ltac preserves_struct HP :=
  repeat first
    [ assumption
    | apply preserves_bind; [|intros ?]
    | apply (preserves_silent _ HP); silent_leaf
    | apply (preserves_when _ HP)
    | match goal with
      | |- preserves _ (if ?b then _ else _) => destruct b
      | |- preserves _ (match ?x with _ => _ end) => destruct x
      end ].

(** *** The registry diagnostics *)

Lemma registry_count_log_flag_only :
  log_flag_only (fun s => registry_records (log s) =
                          if used_font_logged s then 1 else 0).
Proof. intros s s' Hl Hf. by rewrite Hl, Hf. Qed.

Lemma registry_count_logging r :
  is_registry_record r = false ->
  preserves (fun s => registry_records (log s) =
                      if used_font_logged s then 1 else 0) (logging r).
Proof.
  intros Hr s Hs. unfold logging, registry_records in *. simpl. by rewrite Hr.
Qed.

Lemma registry_count_get_font_name env font_id :
  preserves (fun s => registry_records (log s) =
                      if used_font_logged s then 1 else 0)
    (get_font_name env font_id).
Proof.
  intros s Hs. unfold get_font_name, format_not_found, registry_records in *.
  destruct (get_font_detail env font_id) as [d|];
    destruct (is_ascii font_id); unfold_monad; simpl;
    destruct (used_font_logged s) eqn:Hfl; simpl; rewrite ?Hfl; simpl;
    by rewrite ?Hs.
Qed.

Lemma registry_count_resolve env self it :
  preserves (fun s => registry_records (log s) =
                      if used_font_logged s then 1 else 0)
    (if platform_is_win env
     then resolve_win env self it
     else resolve_other env self it).
Proof.
  pose proof registry_count_log_flag_only as HP.
  pose proof (registry_count_logging Error_NoFontNameSetting eq_refl) as H1.
  pose proof (registry_count_logging Warning_UsingDefaultArial eq_refl) as H2.
  pose proof (registry_count_get_font_name env) as H3.
  destruct (platform_is_win env); unfold resolve_win, resolve_other, has_key;
    preserves_struct HP; try apply H3.
Qed.

(** X14. The two registry messages of [get_font_name] ("Font used" and
    "Specified font was not found") are written at most once per process:
    the log holds exactly one of them when [_used_font_logged] is set and
    none when it is not, whatever calls were made. *)
Theorem registry_message_once env s :
  reachable env s ->
  registry_records (log s) = (if used_font_logged s then 1 else 0) /\
  registry_records (log s) <= 1.
Proof.
  intros Hreach.
  assert (H : registry_records (log s) = if used_font_logged s then 1 else 0).
  { apply (reachable_preserves _ registry_count_log_flag_only env
             (registry_count_resolve env) s eq_refl Hreach). }
  split; [done|]. rewrite H. destruct (used_font_logged s); lia.
Qed.

Lemma registry_message_once_witness :
  let env := win_env (Some {[ "normal" := "Consolas"; "italic" := "Garamond" ]}) in
  let s := run_gets env [("Arial", 14%Q, true); ("Arial", 12%Q, true);
                         ("Arial", 14%Q, false)] initial_state in
  registry_records (log s) = (if used_font_logged s then 1 else 0) /\
  registry_records (log s) <= 1.
Proof.
  intros env s. apply (registry_message_once env s). apply run_gets_steps.
Defined.

(** *** Off Windows *)

Lemma flag_unset_log_flag_only :
  log_flag_only (fun s => used_font_logged s = false).
Proof. intros s s' _ Hf. by rewrite Hf. Qed.

Lemma log_empty_log_flag_only : log_flag_only (fun s => log s = []).
Proof. intros s s' Hl _. by rewrite Hl. Qed.

Lemma only_missing_log_flag_only :
  log_flag_only (fun s => Forall (fun r => r = Error_NoFontNameSetting) (log s)).
Proof. intros s s' Hl _. by rewrite Hl. Qed.

Lemma resolve_other_flag env self it :
  preserves (fun s => used_font_logged s = false) (resolve_other env self it).
Proof.
  pose proof flag_unset_log_flag_only as HP.
  assert (H1 : forall r, preserves (fun s => used_font_logged s = false) (logging r))
    by (by intros r s Hs).
  unfold resolve_other, has_key. preserves_struct HP; apply H1.
Qed.

Lemma resolve_other_only_missing env self it :
  preserves (fun s => Forall (fun r => r = Error_NoFontNameSetting) (log s))
    (resolve_other env self it).
Proof.
  pose proof only_missing_log_flag_only as HP.
  assert (H1 : preserves
                 (fun s => Forall (fun r => r = Error_NoFontNameSetting) (log s))
                 (logging Error_NoFontNameSetting)).
  { intros s Hs. simpl. by apply Forall_cons. }
  unfold resolve_other, has_key. preserves_struct HP.
Qed.

Lemma resolve_other_configured_silent env self it :
  is_Some (config_FONT_NAME env) ->
  preserves (fun s => log s = []) (resolve_other env self it).
Proof.
  intros [d Hd]. pose proof log_empty_log_flag_only as HP.
  unfold resolve_other, hasattr_FONT_NAME, has_key. rewrite Hd. simpl.
  preserves_struct HP.
Qed.

(** X15. On a platform other than Windows the registry is never asked:
    [_used_font_logged] is never set, the only record that is ever logged
    is the missing-settings error, and when [config.FONT_NAME] exists
    nothing is logged at all, not even when a request ends at the default
    "Helvetica". *)
Theorem other_platforms_log env s :
  platform_is_win env = false ->
  reachable env s ->
  used_font_logged s = false /\
  Forall (fun r => r = Error_NoFontNameSetting) (log s) /\
  (is_Some (config_FONT_NAME env) -> log s = []).
Proof.
  intros Hplat Hreach. split_and!.
  - apply (reachable_preserves _ flag_unset_log_flag_only env); try done.
    intros self it. rewrite Hplat. apply resolve_other_flag.
  - apply (reachable_preserves _ only_missing_log_flag_only env); try done.
    intros self it. rewrite Hplat. apply resolve_other_only_missing.
  - intros Hcfg.
    apply (reachable_preserves _ log_empty_log_flag_only env); try done.
    intros self it. rewrite Hplat. by apply resolve_other_configured_silent.
Qed.

Lemma other_platforms_log_witness :
  let env := linux_env (Some {[ "italic" := "DejaVu Sans Oblique" ]}) in
  let s := run_gets env [("Arial", 14%Q, true); ("Arial", 14%Q, false)]
             initial_state in
  used_font_logged s = false /\
  Forall (fun r => r = Error_NoFontNameSetting) (log s) /\
  (is_Some (config_FONT_NAME env) -> log s = []).
Proof.
  intros env s. apply (other_platforms_log env s).
  - reflexivity.
  - apply run_gets_steps.
Defined.

(** ** Objects and table entries are permanent *)

(** X16. Whatever calls follow, a [Font] or [FontGlyph] object that exists keeps
    all its attributes, and an entry of either memo table keeps pointing
    at the same object: nothing is evicted, replaced or written again. *)
Theorem objects_and_entries_permanent env s s' :
  reachable env s ->
  rtc (step env) s s' ->
  (forall r f, fonts s !! r = Some f -> fonts s' !! r = Some f) /\
  (forall g x, glyphs s !! g = Some x -> glyphs s' !! g = Some x) /\
  (forall k r, assoc FontKey_eqb k (Font_get_cache s) = Some r ->
     assoc FontKey_eqb k (Font_get_cache s') = Some r) /\
  (forall k g, assoc GlyphKey_eqb k (getGlyph_cache s) = Some g ->
     assoc GlyphKey_eqb k (getGlyph_cache s') = Some g).
Proof.
  intros Hreach Hsteps.
  destruct (steps_wf_extends env s s' (reachable_wf env s Hreach) Hsteps)
    as [_ [A B C D E F]].
  by split_and!.
Qed.

Lemma objects_and_entries_permanent_witness :
  let env := linux_env None in
  let s := (Font_get env ("Arial", 14%Q, false) initial_state).2 in
  let s' := (getGlyph env (0, 65%N) s).2 in
  (forall r f, fonts s !! r = Some f -> fonts s' !! r = Some f) /\
  (forall g x, glyphs s !! g = Some x -> glyphs s' !! g = Some x) /\
  (forall k r, assoc FontKey_eqb k (Font_get_cache s) = Some r ->
     assoc FontKey_eqb k (Font_get_cache s') = Some r) /\
  (forall k g, assoc GlyphKey_eqb k (getGlyph_cache s) = Some g ->
     assoc GlyphKey_eqb k (getGlyph_cache s') = Some g).
Proof.
  intros env s s'. apply (objects_and_entries_permanent env s s').
  - eapply rtc_l; [apply step_Font_get | apply rtc_refl].
  - eapply rtc_l; [|apply rtc_refl]. apply step_getGlyph.
    vm_compute. constructor.
Defined.
